(** * m3: consistency accumulator, aggregator entries and message writer

    A shallow embedding of
    - the topology consistency accumulator exercised by
      [src/dbnode/client/aggregate_results_accumulator_consistency_test.go],
    - [src/aggregator/aggregator/entry.go] and [map.go],
    - [src/msg/producer/writer/message_writer.go],
    together with the properties stated about them. *)

From stdpp Require Import base strings numbers option gmap list.

Local Open Scope Z_scope.

(** ** Topology consistency accumulator *)

Module TCA.

Inductive ShardState := Initializing | Available | Leaving.

Inductive ConsistencyLevel := One | Majority | UnstrictMajority | All.

Record Shard := { shardID : nat; shardState : ShardState }.


Record TopologyMap := {
  replicas : nat;
  numShards : nat;
  hostShards : list (string * list Shard)
}.


Record Tally := { successes : nat; errors : nat }.

Record Accumulator := {
  topoMap : TopologyMap;
  level : ConsistencyLevel;
  tallies : list Tally;
  done : bool;
  err : bool
}.

Inductive Outcome := Ok | Error.

Inductive Result := Pending | DoneSuccess | DoneFailure.

(** Modelled from the spec: the accumulator itself is not part of the
    sources at hand, only its test file is. Levels [One] and
    [UnstrictMajority] are the availability-preferring ones, for which a
    [Leaving] copy counts toward success; [Majority] and [All] require
    an [Available] copy. An [Initializing] copy never counts. *)
Definition availabilityPreferring (l : ConsistencyLevel) : bool :=
  match l with
  | One | UnstrictMajority => true
  | Majority | All => false
  end.

Definition countsTowardSuccess (l : ConsistencyLevel) (s : ShardState) : bool :=
  match s with
  | Initializing => false
  | Available => true
  | Leaving => availabilityPreferring l
  end.

Definition majority (rf : nat) : nat := (rf / 2 + 1)%nat.

(** Modelled from the spec: the per-shard success threshold of each
    level (section 4.1, first column of the table). Majority stops being
    reachable once [RF - RF/2] copies erred. *)
Definition shardSucceeded (l : ConsistencyLevel) (rf : nat) (t : Tally) : bool :=
  match l with
  | One => (1 <=? successes t)%nat
  | Majority => (majority rf <=? successes t)%nat
  | UnstrictMajority =>
      (majority rf <=? successes t)%nat
      || ((rf - rf / 2 <=? errors t)%nat && (1 <=? successes t)%nat)
  | All => (rf <=? successes t)%nat
  end.

(** Modelled from the spec: the per-shard failure condition of each
    level (section 4.1, second column of the table). *)
Definition shardFailed (l : ConsistencyLevel) (rf : nat) (t : Tally) : bool :=
  match l with
  | One => (rf <=? errors t)%nat
  | Majority => (rf - rf / 2 <=? errors t)%nat
  | UnstrictMajority => (rf <=? errors t)%nat
  | All => (1 <=? errors t)%nat
  end.


Definition lookupHost (tm : TopologyMap) (host : string) : list Shard :=
  match find (fun h => String.eqb (fst h) host) (hostShards tm) with
  | Some h => snd h
  | None => []
  end.

(** Modelled from the spec: one response advances the tally of every
    shard the host holds; a success counts only from a copy that serves
    for the level, an error counts from any copy. *)
Definition tallyShard (l : ConsistencyLevel) (o : Outcome) (ts : list Tally)
    (s : Shard) : list Tally :=
  match ts !! shardID s with
  | None => ts
  | Some t =>
      match o with
      | Ok =>
          if countsTowardSuccess l (shardState s)
          then <[shardID s := {| successes := S (successes t); errors := errors t |}]> ts
          else ts
      | Error =>
          <[shardID s := {| successes := successes t; errors := S (errors t) |}]> ts
      end
  end.

(** Modelled from the spec: a shard that no host holds in a state that
    counts for the level can never meet its threshold. *)
Definition servable (tm : TopologyMap) (l : ConsistencyLevel) (shard : nat) : bool :=
  existsb
    (fun h => existsb
                (fun s => (shardID s =? shard)%nat
                          && countsTowardSuccess l (shardState s))
                (snd h))
    (hostShards tm).

(** Modelled from the spec: [Add(host, outcome)]. Once done, the first
    verdict stays; success is checked before failure on the same event. *)
Definition Add (host : string) (o : Outcome) (a : Accumulator) : Accumulator :=
  if done a then a
  else
    let rf := replicas (topoMap a) in
    let ts := foldl (tallyShard (level a) o) (tallies a) (lookupHost (topoMap a) host) in
    if forallb (shardSucceeded (level a) rf) ts
    then {| topoMap := topoMap a; level := level a; tallies := ts;
            done := true; err := false |}
    else if existsb (shardFailed (level a) rf) ts
              || negb (forallb (servable (topoMap a) (level a))
                               (seq 0 (numShards (topoMap a))))
    then {| topoMap := topoMap a; level := level a; tallies := ts;
            done := true; err := true |}
    else {| topoMap := topoMap a; level := level a; tallies := ts;
            done := false; err := false |}.

Definition result (a : Accumulator) : Result :=
  if done a then (if err a then DoneFailure else DoneSuccess) else Pending.

(** The verdict reported after each event of a sequence of responses. *)
Fixpoint run (steps : list (string * Outcome)) (a : Accumulator) : list Result :=
  match steps with
  | [] => []
  | (h, o) :: rest => let a' := Add h o a in result a' :: run rest a'
  end.





End TCA.


(** ** Go values shared by the aggregator and the message writer *)

(** Two's-complement wrap-around of [int32], [int64] and [uint64]. *)
Definition wrap32 (z : Z) : Z := (z + 2 ^ 31) mod 2 ^ 32 - 2 ^ 31.
Definition wrap64 (z : Z) : Z := (z + 2 ^ 63) mod 2 ^ 64 - 2 ^ 63.
Definition wrapU64 (z : Z) : Z := z mod 2 ^ 64.

(** A call either returns or panics; a panic unwinds through every caller
    (none of the modelled functions recovers or defers). *)
Inductive outcome (A : Type) : Type :=
| Returns (a : A)
| Panics.
Arguments Returns {A} a.
Arguments Panics {A}.

(** State passing with panics: the state reached at a panic is kept, the
    rest of the computation is skipped. *)
Definition M (S A : Type) : Type := S -> outcome A * S.

Definition ret {S A} (a : A) : M S A := fun s => (Returns a, s).

Definition bind {S A B} (m : M S A) (k : A -> M S B) : M S B :=
  fun s =>
    match m s with
    | (Returns a, s') => k a s'
    | (Panics, s') => (Panics, s')
    end.

Definition panic {S A} : M S A := fun s => (Panics, s).
Definition get {S} : M S S := fun s => (Returns s, s).
Definition put {S} (s : S) : M S unit := fun _ => (Returns tt, s).
Definition modify {S} (f : S -> S) : M S unit := fun s => (Returns tt, f s).

Declare Scope go_scope.
Delimit Scope go_scope with go.
Notation "x <- c ; k" := (bind c (fun x => k))
  (at level 20, c at level 100, k at level 200, only parsing) : go_scope.
Notation "' p <- c ; k" := (bind c (fun p => k))
  (at level 20, p pattern, c at level 100, k at level 200, only parsing) : go_scope.
Notation "c ;> k" := (bind c (fun _ => k))
  (at level 100, k at level 200, right associativity, only parsing) : go_scope.

(** ** Aggregator: entries ([entry.go]) *)

Module Aggregator.

Local Open Scope go_scope.

#[warnings="-register-all"]
Inductive error :=
| errEmptyMetadatas
| errNoApplicableMetadata
| errNoPipelinesInMetadata
| errEntryClosed
| errWriteValueRateLimitExceeded
| errInvalidMetricType
| errMetricMapClosed
| errWriteNewMetricRateLimitExceeded
| errCollaborator (code : nat)      (* an error returned by a collaborator *)
| errMulti (errs : list error).     (* [xerrors.MultiError] with members *)

(** A Go pair [(value, error)]. *)
Inductive result (A : Type) : Type :=
| OK (a : A)
| Fail (e : error).
Arguments OK {A} a.
Arguments Fail {A} e.

(** [unaggregated.Type]. *)
Inductive MetricType := UnknownType | CounterType | BatchTimerType | GaugeType.

#[global] Instance MetricType_eq_dec : EqDecision MetricType.
Proof. solve_decision. Defined.

#[global] Instance MetricType_countable : Countable MetricType.
Proof.
  refine (inj_countable'
            (fun t => match t with
                      | UnknownType => 0%nat
                      | CounterType => 1%nat
                      | BatchTimerType => 2%nat
                      | GaugeType => 3%nat
                      end)
            (fun n => match n with
                      | 0%nat => UnknownType
                      | 1%nat => CounterType
                      | 2%nat => BatchTimerType
                      | _ => GaugeType
                      end) _).
  by intros [].
Defined.

(** The value types of the metrics packages the entry computes with.
    None of them is declared in the sources at hand; the entry only
    compares, copies and passes them on. *)
Class MetricTypes := {
  AggregationID : Type;            (* [aggregation.ID], compared with == *)
  AggregationID_eq :: EqDecision AggregationID;
  StoragePolicy : Type;            (* [policy.StoragePolicy], compared with == *)
  StoragePolicy_eq :: EqDecision StoragePolicy;
  Pipeline : Type;                 (* [applied.Pipeline] *)
  pipelineEqual : Pipeline -> Pipeline -> bool;
  pipelineClone : Pipeline -> Pipeline;
  IsDefaultStoragePolicies : list StoragePolicy -> bool;
  AggregationTypes : Type;         (* [aggregation.Types] *)
  Window : Type;                   (* [time.Duration] of a resolution *)
  resolutionWindow : StoragePolicy -> Window;
  RawID : Type;                    (* [metricid.RawID] *)
  TimerValue : Type;               (* [float64] *)
  TimerValPool : Type;             (* the pool a batch timer came from *)
  uninitializedCutoverNanos : Z
}.

Section Types.
Context `{MetricTypes}.

(** [unaggregated.MetricUnion]; a nil [BatchTimerVal] or [TimerValPool]
    is [None]. The counter and gauge values are only passed on. *)
Record MetricUnion := {
  Type_ : MetricType;
  ID : RawID;
  BatchTimerVal : option (list TimerValue);
  OwnsID : bool;
  TimerValPool_ : option TimerValPool
}.

(** [metadata.PipelineMetadata]. *)
Record PipelineMetadata := {
  pmAggregationID : AggregationID;
  pmStoragePolicies : list StoragePolicy;
  pmPipeline : Pipeline
}.

(** [metadata.StagedMetadata], with the pipelines of its embedded
    [Metadata]. *)
Record StagedMetadata := {
  CutoverNanos : Z;
  Tombstoned : bool;
  Pipelines : list PipelineMetadata
}.

Record aggregationKey := {
  aggregationID : AggregationID;
  storagePolicy : StoragePolicy;
  pipeline : Pipeline
}.

Definition aggregationKey_Equal (k other : aggregationKey) : bool :=
  bool_decide (aggregationID k = aggregationID other)
  && bool_decide (storagePolicy k = storagePolicy other)
  && pipelineEqual (pipeline k) (pipeline other).

(** [runtime.Options] and [Options], the fields the entry and the map
    read. Durations and times are nanoseconds. *)
Record RuntimeOptions := {
  WriteValuesPerMetricLimitPerSecond : Z;
  WriteNewMetricLimitPerShardPerSecond : Z;
  WriteNewMetricNoLimitWarmupDuration : Z
}.

Record Options := {
  MaxTimerBatchSizePerWrite : Z;
  DefaultStoragePolicies : list StoragePolicy;
  EntryTTL : Z
}.

Record entryMetrics := {
  emptyMetadatas : Z;
  noApplicableMetadata : Z;
  noPipelinesInMetadata : Z;
  emptyPipeline : Z;
  noAggregationInPipeline : Z;
  valueRateLimitExceeded : Z;
  droppedValues : Z;
  staleMetadata : Z;
  tombstonedMetadata : Z;
  metadataUpdates : Z
}.

Definition newEntryMetrics : entryMetrics :=
  {| emptyMetadatas := 0; noApplicableMetadata := 0;
     noPipelinesInMetadata := 0; emptyPipeline := 0;
     noAggregationInPipeline := 0; valueRateLimitExceeded := 0;
     droppedValues := 0; staleMetadata := 0; tombstonedMetadata := 0;
     metadataUpdates := 0 |}.
End Types.

(** The collaborators of an entry: clock, rate limiter, decompressor,
    element pools, metric lists and their elements. They live outside
    [entry.go]; [World] is their combined state, and every call is a
    transition of it. [Lists] is [*metricLists], [MetricList] one list,
    [MetricElem] a pooled element and [ListElem] the [*list.Element] a
    list hands back. Entries are pooled as well; [EntryPtr] is [*Entry]. *)
Class Collaborators `{MetricTypes} := {
  World : Type;
  Limiter : Type;
  Lists : Type;
  MetricList : Type;
  MetricElem : Type;
  ListElem : Type;
  nowFn : World -> Z * World;
  limiterNew : Z -> Limiter;
  limiterReset : Z -> Limiter -> Limiter;
  limiterIsAllowed : Z -> Limiter -> World -> bool * Limiter * World;
  stagedMetadatasIsDefault : list StagedMetadata -> bool;
  decompress : AggregationID -> result AggregationTypes;
  elemPoolGet : MetricType -> World -> MetricElem * World;
  elemResetSetData :
    MetricElem -> RawID -> StoragePolicy -> AggregationTypes -> Pipeline ->
    World -> option error * World;
  listsFindOrCreate : Lists -> Window -> World -> result MetricList * World;
  listPushBack : MetricList -> MetricElem -> World -> result ListElem * World;
  elemMarkAsTombstoned : ListElem -> World -> World;
  elemAddMetric : ListElem -> Z -> MetricUnion -> World -> option error * World;
  elemID : ListElem -> World -> RawID;
  timerValPoolPut : TimerValPool -> list TimerValue -> World -> World;
  entryPoolGet : World -> nat * World;
  entryPoolPut : nat -> World -> World;
  Murmur3Hash128 : RawID -> N * N;
  ceilBatchPercent : nat -> nat;   (* [math.Ceil(batchPercent * float64(n))] *)
  sleepFn : Z -> World -> World;
  metricListsTick : Lists -> World -> Z * World;
  metricListsClose : Lists -> World -> World;
  runtimeOptsCloserClose : World -> World
}.

Section Entry.
Context `{Collaborators}.

Record aggregationValue := {
  key : aggregationKey;
  elem : ListElem
}.

Record Entry := {
  closed : bool;
  opts : Options;
  rateLimiter : option Limiter;
  hasDefaultMetadatas : bool;
  cutoverNanos : Z;
  lists : option Lists;
  numWriters : Z;
  lastAccessNanos : Z;
  aggregations : list aggregationValue;
  metrics : entryMetrics
}.

(** Field assignments. *)
Definition set_closed (b : bool) (e : Entry) : Entry :=
  {| closed := b; opts := opts e; rateLimiter := rateLimiter e;
     hasDefaultMetadatas := hasDefaultMetadatas e;
     cutoverNanos := cutoverNanos e; lists := lists e;
     numWriters := numWriters e; lastAccessNanos := lastAccessNanos e;
     aggregations := aggregations e; metrics := metrics e |}.
Definition set_opts (o : Options) (e : Entry) : Entry :=
  {| closed := closed e; opts := o; rateLimiter := rateLimiter e;
     hasDefaultMetadatas := hasDefaultMetadatas e;
     cutoverNanos := cutoverNanos e; lists := lists e;
     numWriters := numWriters e; lastAccessNanos := lastAccessNanos e;
     aggregations := aggregations e; metrics := metrics e |}.
Definition set_rateLimiter (l : option Limiter) (e : Entry) : Entry :=
  {| closed := closed e; opts := opts e; rateLimiter := l;
     hasDefaultMetadatas := hasDefaultMetadatas e;
     cutoverNanos := cutoverNanos e; lists := lists e;
     numWriters := numWriters e; lastAccessNanos := lastAccessNanos e;
     aggregations := aggregations e; metrics := metrics e |}.
Definition set_hasDefaultMetadatas (b : bool) (e : Entry) : Entry :=
  {| closed := closed e; opts := opts e; rateLimiter := rateLimiter e;
     hasDefaultMetadatas := b;
     cutoverNanos := cutoverNanos e; lists := lists e;
     numWriters := numWriters e; lastAccessNanos := lastAccessNanos e;
     aggregations := aggregations e; metrics := metrics e |}.
Definition set_cutoverNanos (c : Z) (e : Entry) : Entry :=
  {| closed := closed e; opts := opts e; rateLimiter := rateLimiter e;
     hasDefaultMetadatas := hasDefaultMetadatas e;
     cutoverNanos := c; lists := lists e;
     numWriters := numWriters e; lastAccessNanos := lastAccessNanos e;
     aggregations := aggregations e; metrics := metrics e |}.
Definition set_lists (l : option Lists) (e : Entry) : Entry :=
  {| closed := closed e; opts := opts e; rateLimiter := rateLimiter e;
     hasDefaultMetadatas := hasDefaultMetadatas e;
     cutoverNanos := cutoverNanos e; lists := l;
     numWriters := numWriters e; lastAccessNanos := lastAccessNanos e;
     aggregations := aggregations e; metrics := metrics e |}.
Definition set_numWriters (n : Z) (e : Entry) : Entry :=
  {| closed := closed e; opts := opts e; rateLimiter := rateLimiter e;
     hasDefaultMetadatas := hasDefaultMetadatas e;
     cutoverNanos := cutoverNanos e; lists := lists e;
     numWriters := n; lastAccessNanos := lastAccessNanos e;
     aggregations := aggregations e; metrics := metrics e |}.
Definition set_lastAccessNanos (t : Z) (e : Entry) : Entry :=
  {| closed := closed e; opts := opts e; rateLimiter := rateLimiter e;
     hasDefaultMetadatas := hasDefaultMetadatas e;
     cutoverNanos := cutoverNanos e; lists := lists e;
     numWriters := numWriters e; lastAccessNanos := t;
     aggregations := aggregations e; metrics := metrics e |}.
Definition set_aggregations (a : list aggregationValue) (e : Entry) : Entry :=
  {| closed := closed e; opts := opts e; rateLimiter := rateLimiter e;
     hasDefaultMetadatas := hasDefaultMetadatas e;
     cutoverNanos := cutoverNanos e; lists := lists e;
     numWriters := numWriters e; lastAccessNanos := lastAccessNanos e;
     aggregations := a; metrics := metrics e |}.
Definition set_metrics (m : entryMetrics) (e : Entry) : Entry :=
  {| closed := closed e; opts := opts e; rateLimiter := rateLimiter e;
     hasDefaultMetadatas := hasDefaultMetadatas e;
     cutoverNanos := cutoverNanos e; lists := lists e;
     numWriters := numWriters e; lastAccessNanos := lastAccessNanos e;
     aggregations := aggregations e; metrics := m |}.

(** [Counter.Inc(n)] on each counter the entry touches. *)
Definition inc_emptyMetadatas (n : Z) (m : entryMetrics) : entryMetrics :=
  {| emptyMetadatas := emptyMetadatas m + n;
     noApplicableMetadata := noApplicableMetadata m;
     noPipelinesInMetadata := noPipelinesInMetadata m;
     emptyPipeline := emptyPipeline m;
     noAggregationInPipeline := noAggregationInPipeline m;
     valueRateLimitExceeded := valueRateLimitExceeded m;
     droppedValues := droppedValues m; staleMetadata := staleMetadata m;
     tombstonedMetadata := tombstonedMetadata m;
     metadataUpdates := metadataUpdates m |}.
Definition inc_noApplicableMetadata (n : Z) (m : entryMetrics) : entryMetrics :=
  {| emptyMetadatas := emptyMetadatas m;
     noApplicableMetadata := noApplicableMetadata m + n;
     noPipelinesInMetadata := noPipelinesInMetadata m;
     emptyPipeline := emptyPipeline m;
     noAggregationInPipeline := noAggregationInPipeline m;
     valueRateLimitExceeded := valueRateLimitExceeded m;
     droppedValues := droppedValues m; staleMetadata := staleMetadata m;
     tombstonedMetadata := tombstonedMetadata m;
     metadataUpdates := metadataUpdates m |}.
Definition inc_noPipelinesInMetadata (n : Z) (m : entryMetrics) : entryMetrics :=
  {| emptyMetadatas := emptyMetadatas m;
     noApplicableMetadata := noApplicableMetadata m;
     noPipelinesInMetadata := noPipelinesInMetadata m + n;
     emptyPipeline := emptyPipeline m;
     noAggregationInPipeline := noAggregationInPipeline m;
     valueRateLimitExceeded := valueRateLimitExceeded m;
     droppedValues := droppedValues m; staleMetadata := staleMetadata m;
     tombstonedMetadata := tombstonedMetadata m;
     metadataUpdates := metadataUpdates m |}.
Definition inc_valueRateLimitExceeded (n : Z) (m : entryMetrics) : entryMetrics :=
  {| emptyMetadatas := emptyMetadatas m;
     noApplicableMetadata := noApplicableMetadata m;
     noPipelinesInMetadata := noPipelinesInMetadata m;
     emptyPipeline := emptyPipeline m;
     noAggregationInPipeline := noAggregationInPipeline m;
     valueRateLimitExceeded := valueRateLimitExceeded m + n;
     droppedValues := droppedValues m; staleMetadata := staleMetadata m;
     tombstonedMetadata := tombstonedMetadata m;
     metadataUpdates := metadataUpdates m |}.
Definition inc_droppedValues (n : Z) (m : entryMetrics) : entryMetrics :=
  {| emptyMetadatas := emptyMetadatas m;
     noApplicableMetadata := noApplicableMetadata m;
     noPipelinesInMetadata := noPipelinesInMetadata m;
     emptyPipeline := emptyPipeline m;
     noAggregationInPipeline := noAggregationInPipeline m;
     valueRateLimitExceeded := valueRateLimitExceeded m;
     droppedValues := droppedValues m + n; staleMetadata := staleMetadata m;
     tombstonedMetadata := tombstonedMetadata m;
     metadataUpdates := metadataUpdates m |}.
Definition inc_staleMetadata (n : Z) (m : entryMetrics) : entryMetrics :=
  {| emptyMetadatas := emptyMetadatas m;
     noApplicableMetadata := noApplicableMetadata m;
     noPipelinesInMetadata := noPipelinesInMetadata m;
     emptyPipeline := emptyPipeline m;
     noAggregationInPipeline := noAggregationInPipeline m;
     valueRateLimitExceeded := valueRateLimitExceeded m;
     droppedValues := droppedValues m; staleMetadata := staleMetadata m + n;
     tombstonedMetadata := tombstonedMetadata m;
     metadataUpdates := metadataUpdates m |}.
Definition inc_tombstonedMetadata (n : Z) (m : entryMetrics) : entryMetrics :=
  {| emptyMetadatas := emptyMetadatas m;
     noApplicableMetadata := noApplicableMetadata m;
     noPipelinesInMetadata := noPipelinesInMetadata m;
     emptyPipeline := emptyPipeline m;
     noAggregationInPipeline := noAggregationInPipeline m;
     valueRateLimitExceeded := valueRateLimitExceeded m;
     droppedValues := droppedValues m; staleMetadata := staleMetadata m;
     tombstonedMetadata := tombstonedMetadata m + n;
     metadataUpdates := metadataUpdates m |}.
Definition inc_metadataUpdates (n : Z) (m : entryMetrics) : entryMetrics :=
  {| emptyMetadatas := emptyMetadatas m;
     noApplicableMetadata := noApplicableMetadata m;
     noPipelinesInMetadata := noPipelinesInMetadata m;
     emptyPipeline := emptyPipeline m;
     noAggregationInPipeline := noAggregationInPipeline m;
     valueRateLimitExceeded := valueRateLimitExceeded m;
     droppedValues := droppedValues m; staleMetadata := staleMetadata m;
     tombstonedMetadata := tombstonedMetadata m;
     metadataUpdates := metadataUpdates m + n |}.

(** A method of [*Entry] runs on the entry and on the collaborators.
    The entry's locks and the time lock order concurrent callers and
    leave no trace in a single caller's run, so they are not part of
    the state. *)
Definition EM (A : Type) : Type := M (Entry * World) A.

Definition getE : EM Entry := fun s => (Returns (fst s), s).
Definition modifyE (f : Entry -> Entry) : EM unit :=
  fun s => (Returns tt, (f (fst s), snd s)).
Definition liftW {A} (f : World -> A * World) : EM A :=
  fun s => (Returns (fst (f (snd s))), (fst s, snd (f (snd s)))).
Definition modifyW (f : World -> World) : EM unit :=
  fun s => (Returns tt, (fst s, f (snd s))).
Definition getW : EM World := fun s => (Returns (snd s), s).
Definition incMetric (f : entryMetrics -> entryMetrics) : EM unit :=
  modifyE (fun e => set_metrics (f (metrics e)) e).

(** [aggregationValues.index]: [None] stands for [-1]. *)
Fixpoint index (vals : list aggregationValue) (k : aggregationKey) : option nat :=
  match vals with
  | [] => None
  | val :: rest =>
      if aggregationKey_Equal (key val) k then Some 0%nat
      else S <$> index rest k
  end.

Definition contains (vals : list aggregationValue) (k : aggregationKey) : bool :=
  match index vals k with
  | Some _ => true
  | None => false
  end.

Definition IncWriter : EM unit :=
  modifyE (fun e => set_numWriters (wrap32 (numWriters e + 1)) e).

Definition DecWriter : EM unit :=
  modifyE (fun e => set_numWriters (wrap32 (numWriters e - 1)) e).

Definition recordLastAccessed (currTime : Z) : EM unit :=
  modifyE (set_lastAccessNanos currTime).

Definition resetRateLimiterWithLock (runtimeOpts : RuntimeOptions) : EM unit :=
  let newLimit := WriteValuesPerMetricLimitPerSecond runtimeOpts in
  if newLimit <=? 0 then modifyE (set_rateLimiter None)
  else
    e <- getE ;
    match rateLimiter e with
    | None => modifyE (set_rateLimiter (Some (limiterNew newLimit)))
    | Some l => modifyE (set_rateLimiter (Some (limiterReset newLimit l)))
    end.

Definition ResetSetData (ls : Lists) (runtimeOpts : RuntimeOptions)
    (o : Options) : EM unit :=
  modifyE (set_closed false) ;>
  modifyE (set_opts o) ;>
  resetRateLimiterWithLock runtimeOpts ;>
  modifyE (set_hasDefaultMetadatas false) ;>
  modifyE (set_cutoverNanos uninitializedCutoverNanos) ;>
  modifyE (set_lists (Some ls)) ;>
  modifyE (set_numWriters 0) ;>
  now <- liftW nowFn ;
  recordLastAccessed now.

Definition SetRuntimeOptions (runtimeOpts : RuntimeOptions) : EM unit :=
  e <- getE ;
  if closed e then ret tt
  else resetRateLimiterWithLock runtimeOpts.

(** [bitset.New(n)], [Set(i)] and [All(n)] of the aggregator's bit set
    package, which is not among the sources at hand: [n] cleared bits,
    setting one of them, and whether the first [n] are all set. *)
Definition bitsetNew (n : nat) : list bool := replicate n false.
Definition bitsetSet (i : nat) (bs : list bool) : list bool := <[i:=true]> bs.
Definition bitsetAll (n : nat) (bs : list bool) : bool :=
  forallb (fun i => default false (bs !! i)) (seq 0 n).

Definition FinalError (errs : list error) : option error :=
  match errs with
  | [] => None
  | _ => Some (errMulti errs)
  end.

(** The loop of [activeStagedMetadataWithLock]: [n] is [idx + 1], so
    the scan starts at [n = len(metadatas)] and stops at [n = 0]. *)
Fixpoint scanStagedMetadatas (timeNanos : Z) (metadatas : list StagedMetadata)
    (n : nat) : option StagedMetadata :=
  match n with
  | O => None
  | S idx =>
      match metadatas !! idx with
      | Some sm =>
          if CutoverNanos sm <=? timeNanos then Some sm
          else scanStagedMetadatas timeNanos metadatas idx
      | None => None
      end
  end.

Definition activeStagedMetadataWithLock (t : Z)
    (metadatas : list StagedMetadata) : EM (result StagedMetadata) :=
  if (length metadatas =? 0)%nat then
    incMetric (inc_emptyMetadatas 1) ;>
    ret (Fail errEmptyMetadatas)
  else
    match scanStagedMetadatas t metadatas (length metadatas) with
    | Some sm => ret (OK sm)
    | None =>
        incMetric (inc_noApplicableMetadata 1) ;>
        ret (Fail errNoApplicableMetadata)
    end.

Definition storagePolicies (e : Entry) (policies : list StoragePolicy)
  : list StoragePolicy :=
  if negb (IsDefaultStoragePolicies policies) then policies
  else DefaultStoragePolicies (opts e).

Definition keyOf (pm : PipelineMetadata) (sp : StoragePolicy) : aggregationKey :=
  {| aggregationID := pmAggregationID pm;
     storagePolicy := sp;
     pipeline := pmPipeline pm |}.

(** The two nested loops of [shouldUpdateMetadatasWithLock]; [None] is
    the early [return true] at a key the entry does not have. *)
Fixpoint checkPolicies (e : Entry) (pm : PipelineMetadata)
    (sps : list StoragePolicy) (bs : list bool) : option (list bool) :=
  match sps with
  | [] => Some bs
  | sp :: rest =>
      match index (aggregations e) (keyOf pm sp) with
      | None => None
      | Some idx => checkPolicies e pm rest (bitsetSet idx bs)
      end
  end.

Fixpoint checkPipelines (e : Entry) (pms : list PipelineMetadata)
    (bs : list bool) : option (list bool) :=
  match pms with
  | [] => Some bs
  | pm :: rest =>
      match checkPolicies e pm (storagePolicies e (pmStoragePolicies pm)) bs with
      | None => None
      | Some bs' => checkPipelines e rest bs'
      end
  end.



(** A method that leaves the writer count of the entry alone, however it
    ends. *)
Definition keepsWriters {A} (c : EM A) : Prop :=
  forall e w, numWriters (fst (snd (c (e, w)))) = numWriters e.


Definition shouldUpdateMetadatasWithLock (sm : StagedMetadata) : EM bool :=
  e <- getE ;
  if cutoverNanos e >? CutoverNanos sm then
    incMetric (inc_staleMetadata 1) ;>
    ret false
  else if cutoverNanos e <? CutoverNanos sm then ret true
  else
    match checkPipelines e (Pipelines sm)
            (bitsetNew (length (aggregations e))) with
    | None => ret true
    | Some bs => ret (negb (bitsetAll (length (aggregations e)) bs))
    end.

(** A copy of a raw id is the same value. *)
Definition maybeCopyIDWithLock (metric : MetricUnion) : EM RawID :=
  if OwnsID metric then ret (ID metric)
  else
    e <- getE ;
    match aggregations e with
    | val :: _ => w <- getW ; ret (elemID (elem val) w)
    | [] => ret (ID metric)
    end.

(** The inner loop of [updateMetadatasWithLock] over the storage
    policies of one pipeline. *)
Fixpoint updatePolicies (metric : MetricUnion) (elemID_ : RawID)
    (pm : PipelineMetadata) (sps : list StoragePolicy)
    (newAggregations : list aggregationValue)
  : EM (result (list aggregationValue)) :=
  match sps with
  | [] => ret (OK newAggregations)
  | sp :: rest =>
      let k := keyOf pm sp in
      if contains newAggregations k then
        updatePolicies metric elemID_ pm rest newAggregations
      else
        e <- getE ;
        match index (aggregations e) k with
        | Some idx =>
            match aggregations e !! idx with
            | Some val =>
                updatePolicies metric elemID_ pm rest (newAggregations ++ [val])
            | None => panic
            end
        | None =>
            match decompress (aggregationID k) with
            | Fail err => ret (Fail err)
            | OK aggTypes =>
                match Type_ metric with
                | UnknownType => ret (Fail errInvalidMetricType)
                | ty =>
                    newElem <- liftW (elemPoolGet ty) ;
                    let k' := {| aggregationID := aggregationID k;
                                 storagePolicy := storagePolicy k;
                                 pipeline := pipelineClone (pipeline k) |} in
                    err <- liftW (elemResetSetData newElem elemID_ sp aggTypes
                                    (pipeline k')) ;
                    match err with
                    | Some err => ret (Fail err)
                    | None =>
                        match lists e with
                        | None => panic
                        | Some ls =>
                            l <- liftW (listsFindOrCreate ls (resolutionWindow sp)) ;
                            match l with
                            | Fail err => ret (Fail err)
                            | OK list =>
                                le <- liftW (listPushBack list newElem) ;
                                match le with
                                | Fail err => ret (Fail err)
                                | OK newListElem =>
                                    updatePolicies metric elemID_ pm rest
                                      (newAggregations
                                         ++ [{| key := k'; elem := newListElem |}])
                                end
                            end
                        end
                    end
                end
            end
        end
  end.

Fixpoint updatePipelines (metric : MetricUnion) (elemID_ : RawID)
    (pms : list PipelineMetadata) (newAggregations : list aggregationValue)
  : EM (result (list aggregationValue)) :=
  match pms with
  | [] => ret (OK newAggregations)
  | pm :: rest =>
      e <- getE ;
      r <- updatePolicies metric elemID_ pm
             (storagePolicies e (pmStoragePolicies pm)) newAggregations ;
      match r with
      | Fail err => ret (Fail err)
      | OK newAggregations' =>
          updatePipelines metric elemID_ rest newAggregations'
      end
  end.

Fixpoint tombstoneOutdated (newAggregations : list aggregationValue)
    (old : list aggregationValue) : EM unit :=
  match old with
  | [] => ret tt
  | val :: rest =>
      (if negb (contains newAggregations (key val))
       then modifyW (elemMarkAsTombstoned (elem val))
       else ret tt) ;>
      tombstoneOutdated newAggregations rest
  end.

Definition updateMetadatasWithLock (metric : MetricUnion)
    (hasDefaultMetadatas_ : bool) (sm : StagedMetadata) : EM (option error) :=
  elemID_ <- maybeCopyIDWithLock metric ;
  r <- updatePipelines metric elemID_ (Pipelines sm) [] ;
  match r with
  | Fail err => ret (Some err)
  | OK newAggregations =>
      e <- getE ;
      tombstoneOutdated newAggregations (aggregations e) ;>
      modifyE (set_aggregations newAggregations) ;>
      modifyE (set_hasDefaultMetadatas hasDefaultMetadatas_) ;>
      modifyE (set_cutoverNanos (CutoverNanos sm)) ;>
      incMetric (inc_metadataUpdates 1) ;>
      ret None
  end.

Fixpoint addMetricLoop (timestamp : Z) (mu : MetricUnion)
    (vals : list aggregationValue) (multiErr : list error) : EM (list error) :=
  match vals with
  | [] => ret multiErr
  | val :: rest =>
      err <- liftW (elemAddMetric (elem val) timestamp mu) ;
      match err with
      | Some err => addMetricLoop timestamp mu rest (multiErr ++ [err])
      | None => addMetricLoop timestamp mu rest multiErr
      end
  end.

Definition addMetricWithLock (timestamp : Z) (mu : MetricUnion)
  : EM (option error) :=
  e <- getE ;
  multiErr <- addMetricLoop timestamp mu (aggregations e) [] ;
  ret (FinalError multiErr).

Definition shouldExpire (now : Z) (e : Entry) : bool :=
  (numWriters e =? 0) && (lastAccessNanos e + EntryTTL (opts e) <? now).

Definition ShouldExpire (now : Z) : EM bool :=
  e <- getE ;
  if closed e then ret false
  else ret (shouldExpire now e).

Fixpoint tombstoneAll (vals : list aggregationValue) : EM unit :=
  match vals with
  | [] => ret tt
  | val :: rest =>
      modifyW (elemMarkAsTombstoned (elem val)) ;>
      tombstoneAll rest
  end.

(** [self] is the receiver's address, handed back to the pool. *)
Definition TryExpire (self : nat) (now : Z) : EM bool :=
  e <- getE ;
  if closed e then ret false
  else if negb (shouldExpire now e) then ret false
  else
    modifyE (set_closed true) ;>
    tombstoneAll (aggregations e) ;>
    modifyE (set_aggregations []) ;>
    modifyE (set_lists None) ;>
    modifyW (entryPoolPut self) ;>
    ret true.

Definition addUntimed (metric : MetricUnion)
    (metadatas : list StagedMetadata) : EM (option error) :=
  currTime <- liftW nowFn ;
  recordLastAccessed currTime ;>
  e <- getE ;
  if closed e then ret (Some errEntryClosed)
  else
    let hasDefaultMetadatas_ := stagedMetadatasIsDefault metadatas in
    if hasDefaultMetadatas e && hasDefaultMetadatas_ then
      addMetricWithLock currTime metric
    else
      r <- activeStagedMetadataWithLock currTime metadatas ;
      match r with
      | Fail err => ret (Some err)
      | OK sm =>
          if Tombstoned sm then
            incMetric (inc_tombstonedMetadata 1) ;>
            ret None
          else if (length (Pipelines sm) =? 0)%nat then
            incMetric (inc_noPipelinesInMetadata 1) ;>
            ret (Some errNoPipelinesInMetadata)
          else
            should <- shouldUpdateMetadatasWithLock sm ;
            if negb should then addMetricWithLock currTime metric
            else
              e <- getE ;
              if closed e then ret (Some errEntryClosed)
              else
                should <- shouldUpdateMetadatasWithLock sm ;
                err <- (if should
                        then updateMetadatasWithLock metric hasDefaultMetadatas_ sm
                        else ret None) ;
                match err with
                | Some err => ret (Some err)
                | None => addMetricWithLock currTime metric
                end
      end.

Definition withBatchTimerVal (metric : MetricUnion)
    (vals : list TimerValue) : MetricUnion :=
  {| Type_ := Type_ metric; ID := ID metric; BatchTimerVal := Some vals;
     OwnsID := OwnsID metric; TimerValPool_ := TimerValPool_ metric |}.

(** The loop of [writeBatchTimerWithMetadatas]. [start + max] is an
    [int] addition; slicing [timerValues[start:end]] panics when
    [end < start]. Every turn that does not panic moves [start]
    forward, so [fuel = len(timerValues)] turns are enough. *)
Fixpoint writeBatchTimerLoop (fuel : nat) (metric : MetricUnion)
    (metadatas : list StagedMetadata) (timerValues : list TimerValue)
    (maxTimerBatchSizePerWrite : Z) (start : Z) : EM (option error) :=
  let numTimerValues := Z.of_nat (length timerValues) in
  if start <? numTimerValues then
    match fuel with
    | O => panic
    | S fuel' =>
        let end0 := wrap64 (start + maxTimerBatchSizePerWrite) in
        let end_ := if end0 >? numTimerValues then numTimerValues else end0 in
        if end_ <? start then panic
        else
          let splitTimer :=
            withBatchTimerVal metric
              (take (Z.to_nat (end_ - start)) (drop (Z.to_nat start) timerValues)) in
          err <- addUntimed splitTimer metadatas ;
          match err with
          | Some err => ret (Some err)
          | None =>
              writeBatchTimerLoop fuel' metric metadatas timerValues
                maxTimerBatchSizePerWrite end_
          end
    end
  else ret None.

Definition writeBatchTimerWithMetadatas (metric : MetricUnion)
    (metadatas : list StagedMetadata) : EM (option error) :=
  e <- getE ;
  let maxTimerBatchSizePerWrite := MaxTimerBatchSizePerWrite (opts e) in
  if maxTimerBatchSizePerWrite =? 0 then addUntimed metric metadatas
  else
    let timerValues := default [] (BatchTimerVal metric) in
    writeBatchTimerLoop (length timerValues) metric metadatas timerValues
      maxTimerBatchSizePerWrite 0.

Definition applyValueRateLimit (numValues : Z) : EM (option error) :=
  e <- getE ;
  match rateLimiter e with
  | None => ret None
  | Some l =>
      '(allowed, l') <- liftW (limiterIsAllowed numValues l) ;
      modifyE (set_rateLimiter (Some l')) ;>
      if (allowed : bool) then ret None
      else
        incMetric (inc_valueRateLimitExceeded 1) ;>
        incMetric (inc_droppedValues numValues) ;>
        ret (Some errWriteValueRateLimitExceeded)
  end.

(** The number of values a write asks the limiter for: the batch length
    of a batch timer, one for any other metric. *)
Definition numValuesOf (metric : MetricUnion) : Z :=
  match Type_ metric with
  | BatchTimerType => Z.of_nat (length (default [] (BatchTimerVal metric)))
  | _ => 1
  end.

(** The batch of timer values goes back to the pool it came from. *)
Definition returnBatchTimerVal (metric : MetricUnion) : EM unit :=
  match BatchTimerVal metric, TimerValPool_ metric with
  | Some vals, Some pool => modifyW (timerValPoolPut pool vals)
  | _, _ => ret tt
  end.

Definition AddUntimed (metric : MetricUnion)
    (metadatas : list StagedMetadata) : EM (option error) :=
  match Type_ metric with
  | BatchTimerType =>
      err <- applyValueRateLimit
               (Z.of_nat (length (default [] (BatchTimerVal metric)))) ;
      err <- match err with
             | None => writeBatchTimerWithMetadatas metric metadatas
             | Some _ => ret err
             end ;
      returnBatchTimerVal metric ;>
      ret err
  | _ =>
      err <- applyValueRateLimit 1 ;
      match err with
      | Some err => ret (Some err)
      | None => addUntimed metric metadatas
      end
  end.
End Entry.

(** ** Aggregator: the per-shard map ([map.go]) *)

Section Map.
Context `{Collaborators}.

Definition defaultSoftDeadlineCheckEvery : Z := 128.
Definition defaultExpireBatchSize : nat := 1024.

(** [entryKey]: the metric type and the 128-bit hash of the id. *)
Definition entryKey : Type := MetricType * (N * N).

Record hashedEntry := {
  heKey : entryKey;
  heEntry : nat
}.

Record metricMapMetrics := {
  newEntries : Z;
  noRateLimitWarmup : Z;
  newMetricRateLimitExceeded : Z;
  droppedNewMetrics : Z
}.

(** [metricMap]. An element of [entryList] is the address of a
    [list.Element] with its [Value]; [entries] maps a key to such an
    address, and [nextElement] is the next address [PushBack] hands
    out. [firstInsertAt] is [None] while it is the zero time. *)
Record metricMap := {
  mopts : Options;
  mclosed : bool;
  metricLists_ : Lists;
  entries : gmap entryKey nat;
  entryList : list (nat * hashedEntry);
  nextElement : nat;
  firstInsertAt : option Z;
  mrateLimiter : option Limiter;
  runtimeOpts : RuntimeOptions;
  mmetrics : metricMapMetrics
}.

(** The map, the entries it may point to, and the collaborators. *)
Record State := {
  mmap : metricMap;
  heap : gmap nat Entry;
  world : World
}.

Definition MM (A : Type) : Type := M State A.

Definition set_mmap (m : metricMap) (s : State) : State :=
  {| mmap := m; heap := heap s; world := world s |}.
Definition set_heap (h : gmap nat Entry) (s : State) : State :=
  {| mmap := mmap s; heap := h; world := world s |}.
Definition set_world (w : World) (s : State) : State :=
  {| mmap := mmap s; heap := heap s; world := w |}.

Definition set_mclosed (b : bool) (m : metricMap) : metricMap :=
  {| mopts := mopts m; mclosed := b; metricLists_ := metricLists_ m;
     entries := entries m; entryList := entryList m;
     nextElement := nextElement m; firstInsertAt := firstInsertAt m;
     mrateLimiter := mrateLimiter m; runtimeOpts := runtimeOpts m;
     mmetrics := mmetrics m |}.
Definition set_entries (en : gmap entryKey nat) (l : list (nat * hashedEntry))
    (next : nat) (m : metricMap) : metricMap :=
  {| mopts := mopts m; mclosed := mclosed m; metricLists_ := metricLists_ m;
     entries := en; entryList := l;
     nextElement := next; firstInsertAt := firstInsertAt m;
     mrateLimiter := mrateLimiter m; runtimeOpts := runtimeOpts m;
     mmetrics := mmetrics m |}.
Definition set_firstInsertAt (t : option Z) (m : metricMap) : metricMap :=
  {| mopts := mopts m; mclosed := mclosed m; metricLists_ := metricLists_ m;
     entries := entries m; entryList := entryList m;
     nextElement := nextElement m; firstInsertAt := t;
     mrateLimiter := mrateLimiter m; runtimeOpts := runtimeOpts m;
     mmetrics := mmetrics m |}.
Definition set_mrateLimiter (l : option Limiter) (m : metricMap) : metricMap :=
  {| mopts := mopts m; mclosed := mclosed m; metricLists_ := metricLists_ m;
     entries := entries m; entryList := entryList m;
     nextElement := nextElement m; firstInsertAt := firstInsertAt m;
     mrateLimiter := l; runtimeOpts := runtimeOpts m;
     mmetrics := mmetrics m |}.
Definition set_runtimeOpts (o : RuntimeOptions) (m : metricMap) : metricMap :=
  {| mopts := mopts m; mclosed := mclosed m; metricLists_ := metricLists_ m;
     entries := entries m; entryList := entryList m;
     nextElement := nextElement m; firstInsertAt := firstInsertAt m;
     mrateLimiter := mrateLimiter m; runtimeOpts := o;
     mmetrics := mmetrics m |}.
Definition set_mmetrics (mt : metricMapMetrics) (m : metricMap) : metricMap :=
  {| mopts := mopts m; mclosed := mclosed m; metricLists_ := metricLists_ m;
     entries := entries m; entryList := entryList m;
     nextElement := nextElement m; firstInsertAt := firstInsertAt m;
     mrateLimiter := mrateLimiter m; runtimeOpts := runtimeOpts m;
     mmetrics := mt |}.

Definition inc_newEntries (n : Z) (m : metricMapMetrics) : metricMapMetrics :=
  {| newEntries := newEntries m + n; noRateLimitWarmup := noRateLimitWarmup m;
     newMetricRateLimitExceeded := newMetricRateLimitExceeded m;
     droppedNewMetrics := droppedNewMetrics m |}.
Definition inc_noRateLimitWarmup (n : Z) (m : metricMapMetrics) : metricMapMetrics :=
  {| newEntries := newEntries m; noRateLimitWarmup := noRateLimitWarmup m + n;
     newMetricRateLimitExceeded := newMetricRateLimitExceeded m;
     droppedNewMetrics := droppedNewMetrics m |}.
Definition inc_newMetricRateLimitExceeded (n : Z) (m : metricMapMetrics)
  : metricMapMetrics :=
  {| newEntries := newEntries m; noRateLimitWarmup := noRateLimitWarmup m;
     newMetricRateLimitExceeded := newMetricRateLimitExceeded m + n;
     droppedNewMetrics := droppedNewMetrics m |}.
Definition inc_droppedNewMetrics (n : Z) (m : metricMapMetrics) : metricMapMetrics :=
  {| newEntries := newEntries m; noRateLimitWarmup := noRateLimitWarmup m;
     newMetricRateLimitExceeded := newMetricRateLimitExceeded m;
     droppedNewMetrics := droppedNewMetrics m + n |}.

Definition getM : MM metricMap := fun s => (Returns (mmap s), s).
Definition modifyM (f : metricMap -> metricMap) : MM unit :=
  fun s => (Returns tt, set_mmap (f (mmap s)) s).
Definition liftWorld {A} (f : World -> A * World) : MM A :=
  fun s => (Returns (fst (f (world s))), set_world (snd (f (world s))) s).
Definition modifyWorld (f : World -> World) : MM unit :=
  fun s => (Returns tt, set_world (f (world s)) s).
Definition incMapMetric (f : metricMapMetrics -> metricMapMetrics) : MM unit :=
  modifyM (fun m => set_mmetrics (f (mmetrics m)) m).

(** An entry as [NewEntry] allocates it, before [ResetSetData]. *)
Definition allocatedEntry (o : Options) : Entry :=
  {| closed := false; opts := o; rateLimiter := None;
     hasDefaultMetadatas := false; cutoverNanos := 0; lists := None;
     numWriters := 0; lastAccessNanos := 0; aggregations := [];
     metrics := newEntryMetrics |}.

(** [NewEntry]: the allocated entry, reset and set. *)
Definition NewEntry (ls : Lists) (runtimeOpts_ : RuntimeOptions) (o : Options)
  : World -> Entry * World :=
  fun w => snd (ResetSetData ls runtimeOpts_ o (allocatedEntry o, w)).

(** The entry at an address; an address the heap does not hold yet is
    a newly allocated entry. *)
Definition entryAt (s : State) (p : nat) : Entry :=
  default (allocatedEntry (mopts (mmap s))) (heap s !! p).

(** Calling a method on the entry at address [p]. *)
Definition onEntry {A} (p : nat) (m : EM A) : MM A :=
  fun s =>
    let r := m (entryAt s p, world s) in
    (fst r, set_world (snd (snd r)) (set_heap (<[p := fst (snd r)]> (heap s)) s)).

(** [list.Element.Value] of an element of the entry list. An element
    taken out of the list has a nil [Value], and asserting its type
    panics. *)
Definition elementValue (l : list (nat * hashedEntry)) (elem_ : nat)
  : option hashedEntry :=
  snd <$> find (fun node => (fst node =? elem_)%nat) l.

(** [list.List.Remove]. *)
Definition listRemove (elem_ : nat) (l : list (nat * hashedEntry))
  : list (nat * hashedEntry) :=
  filter (fun node => fst node ≠ elem_) l.

Definition lookupEntryWithLock (k : entryKey) : MM (option nat) :=
  m <- getM ;
  match entries m !! k with
  | None => ret None
  | Some elem_ =>
      match elementValue (entryList m) elem_ with
      | Some he => ret (Some (heEntry he))
      | None => panic
      end
  end.

Definition resetMapRateLimiterWithLock (ro : RuntimeOptions) : MM unit :=
  let newLimit := WriteNewMetricLimitPerShardPerSecond ro in
  if newLimit <=? 0 then modifyM (set_mrateLimiter None)
  else
    m <- getM ;
    match mrateLimiter m with
    | None => modifyM (set_mrateLimiter (Some (limiterNew newLimit)))
    | Some l => modifyM (set_mrateLimiter (Some (limiterReset newLimit l)))
    end.

(** [firstInsertAt] is set by the time this runs; the zero time stands as
    0 otherwise. *)
Definition applyNewMetricRateLimitWithLock (now : Z) : MM (option error) :=
  m <- getM ;
  match mrateLimiter m with
  | None => ret None
  | Some l =>
      let noLimitWarmupDuration :=
        WriteNewMetricNoLimitWarmupDuration (runtimeOpts m) in
      let warmupEnd := default 0 (firstInsertAt m) + noLimitWarmupDuration in
      if now <? warmupEnd then
        incMapMetric (inc_noRateLimitWarmup 1) ;>
        ret None
      else
        '(allowed, l') <- liftWorld (limiterIsAllowed 1 l) ;
        modifyM (set_mrateLimiter (Some l')) ;>
        if (allowed : bool) then ret None
        else
          incMapMetric (inc_newMetricRateLimitExceeded 1) ;>
          incMapMetric (inc_droppedNewMetrics 1) ;>
          ret (Some errWriteNewMetricRateLimitExceeded)
  end.

Definition findOrCreate (k : entryKey) : MM (result nat) :=
  m <- getM ;
  if mclosed m then ret (Fail errMetricMapClosed)
  else
    found <- lookupEntryWithLock k ;
    match found with
    | Some entry => onEntry entry IncWriter ;> ret (OK entry)
    | None =>
        (* the same checks again, now under the exclusive lock *)
        m <- getM ;
        if mclosed m then ret (Fail errMetricMapClosed)
        else
          found <- lookupEntryWithLock k ;
          match found with
          | Some entry => onEntry entry IncWriter ;> ret (OK entry)
          | None =>
              now <- liftWorld nowFn ;
              (if firstInsertAt m is None
               then modifyM (set_firstInsertAt (Some now))
               else ret tt) ;>
              err <- applyNewMetricRateLimitWithLock now ;
              match err with
              | Some err => ret (Fail err)
              | None =>
                  entry <- liftWorld entryPoolGet ;
                  m <- getM ;
                  onEntry entry
                    (ResetSetData (metricLists_ m) (runtimeOpts m) (mopts m)) ;>
                  modifyM (fun m =>
                    set_entries
                      (<[k := nextElement m]> (entries m))
                      (entryList m
                         ++ [(nextElement m, {| heKey := k; heEntry := entry |})])
                      (S (nextElement m)) m) ;>
                  onEntry entry IncWriter ;>
                  incMapMetric (inc_newEntries 1) ;>
                  ret (OK entry)
              end
          end
    end.

Definition mapAddUntimed (metric : MetricUnion)
    (metadatas : list StagedMetadata) : MM (option error) :=
  let k : entryKey := (Type_ metric, Murmur3Hash128 (ID metric)) in
  r <- findOrCreate k ;
  match r with
  | Fail err => ret (Some err)
  | OK entry =>
      err <- onEntry entry (AddUntimed metric metadatas) ;
      onEntry entry DecWriter ;>
      ret err
  end.

(** The loop of [purgeExpired]. Looking up a key the map does not
    hold gives a nil element, and writing its [Value] panics. *)
Fixpoint purgeLoop (now : Z) (es : list hashedEntry) (numExpired : Z) : MM Z :=
  match es with
  | [] => ret numExpired
  | he :: rest =>
      expired <- onEntry (heEntry he) (TryExpire (heEntry he) now) ;
      if (expired : bool) then
        m <- getM ;
        match entries m !! heKey he with
        | None => panic
        | Some elem_ =>
            modifyM (set_entries (delete (heKey he) (entries m))
                                 (listRemove elem_ (entryList m))
                                 (nextElement m)) ;>
            purgeLoop now rest (numExpired + 1)
        end
      else purgeLoop now rest numExpired
  end.

Definition purgeExpired (now : Z) (es : list hashedEntry) : MM Z :=
  if (length es =? 0)%nat then ret 0
  else purgeLoop now es 0.

(** The elements of the list from the one at address [elem_] on; none
    when that element is not in the list. *)
Fixpoint elementsFrom (elem_ : nat) (l : list (nat * hashedEntry))
  : list (nat * hashedEntry) :=
  match l with
  | [] => []
  | node :: rest =>
      if (fst node =? elem_)%nat then node :: rest
      else elementsFrom elem_ rest
  end.

Fixpoint callEach {A} (entryFn : hashedEntry -> A -> MM A)
    (currEntries : list hashedEntry) (a : A) : MM A :=
  match currEntries with
  | [] => ret a
  | entry :: rest => a' <- entryFn entry a ; callEach entryFn rest a'
  end.

(** The outer loop of [forEachEntry]: one turn reads up to [batchSize]
    elements starting at [currElem], remembers the element after them,
    and then calls [entryFn] on what it read. [A] is the state the
    closure [entryFn] captures. Each turn reads at least one element. *)
Fixpoint forEachLoop {A} (fuel : nat) (batchSize : nat)
    (entryFn : hashedEntry -> A -> MM A) (currElem : option nat) (a : A) : MM A :=
  match currElem with
  | None => ret a
  | Some cur =>
      match fuel with
      | O => panic
      | S fuel' =>
          m <- getM ;
          match elementsFrom cur (entryList m) with
          | [] => panic
          | nodes =>
              let currEntries := snd <$> take batchSize nodes in
              let nextElem := fst <$> head (drop batchSize nodes) in
              a' <- callEach entryFn currEntries a ;
              forEachLoop fuel' batchSize entryFn nextElem a'
          end
      end
  end.

Definition forEachEntry {A} (entryFn : hashedEntry -> A -> MM A) (a : A) : MM A :=
  m <- getM ;
  let elemsLen := length (entryList m) in
  if (elemsLen =? 0)%nat then ret a
  else
    let batchSize := Nat.max 1 (ceilBatchPercent elemsLen) in
    forEachLoop elemsLen batchSize entryFn (fst <$> head (entryList m)) a.

(** The variables the closure of [deleteExpired] captures. *)
Record expireState := {
  expired : list hashedEntry;
  numExpired : Z;
  entryIdx : Z
}.

Definition deleteExpiredFn (start perEntrySoftDeadline : Z)
    (entry : hashedEntry) (st : expireState) : MM expireState :=
  now <- liftWorld nowFn ;
  (if (entryIdx st >? 0)
      && (Z.rem (entryIdx st) defaultSoftDeadlineCheckEvery =? 0)
   then
     let targetDeadline :=
       start + wrap64 (entryIdx st * perEntrySoftDeadline) in
     if now <? targetDeadline
     then modifyWorld (sleepFn (targetDeadline - now))
     else ret tt
   else ret tt) ;>
  should <- onEntry (heEntry entry) (ShouldExpire now) ;
  let expired' := if (should : bool) then expired st ++ [entry] else expired st in
  if (defaultExpireBatchSize <=? length expired')%nat then
    n <- purgeExpired now expired' ;
    ret {| expired := []; numExpired := numExpired st + n;
           entryIdx := entryIdx st + 1 |}
  else
    ret {| expired := expired'; numExpired := numExpired st;
           entryIdx := entryIdx st + 1 |}.

Definition deleteExpired (target : Z) : MM Z :=
  m <- getM ;
  let numEntries := length (entryList m) in
  if (numEntries =? 0)%nat then ret 0
  else
    start <- liftWorld nowFn ;
    let perEntrySoftDeadline := Z.quot target (Z.of_nat numEntries) in
    st <- forEachEntry (deleteExpiredFn start perEntrySoftDeadline)
            {| expired := []; numExpired := 0; entryIdx := 0 |} ;
    now <- liftWorld nowFn ;
    n <- purgeExpired now (expired st) ;
    ret (numExpired st + n).

Record tickResult := {
  ActiveEntries : nat;
  ExpiredEntries : Z;
  ActiveElems : Z
}.

Definition Tick (target : Z) : MM tickResult :=
  expiredEntries <- deleteExpired target ;
  m <- getM ;
  let activeEntries := length (entryList m) in
  activeElems <- liftWorld (metricListsTick (metricLists_ m)) ;
  ret {| ActiveEntries := activeEntries; ExpiredEntries := expiredEntries;
         ActiveElems := activeElems |}.

Definition mapSetRuntimeOptions (o : RuntimeOptions) : MM unit :=
  modifyM (set_runtimeOpts o) ;>
  resetMapRateLimiterWithLock o ;>
  forEachEntry (fun entry _ => onEntry (heEntry entry) (SetRuntimeOptions o)) tt.

Definition Close : MM unit :=
  m <- getM ;
  if mclosed m then ret tt
  else
    modifyWorld runtimeOptsCloserClose ;>
    modifyWorld (metricListsClose (metricLists_ m)) ;>
    modifyM (set_mclosed true).

(** [newMetricMap]: [ls] is what [newMetricLists] built and [ro] the
    options the runtime options manager holds. The constructor resets the
    rate limiter from them; the [runtimeOpts] field itself is first written
    by [SetRuntimeOptions], which the manager calls on a registered
    watcher, and the map starts here with that value in place. *)
Definition newMetricMap (o : Options) (ls : Lists) (ro : RuntimeOptions)
  : metricMap :=
  {| mopts := o; mclosed := false; metricLists_ := ls;
     entries := ∅; entryList := []; nextElement := 0;
     firstInsertAt := None;
     mrateLimiter :=
       (if WriteNewMetricLimitPerShardPerSecond ro <=? 0 then None
        else Some (limiterNew (WriteNewMetricLimitPerShardPerSecond ro)));
     runtimeOpts := ro;
     mmetrics := {| newEntries := 0; noRateLimitWarmup := 0;
                    newMetricRateLimitExceeded := 0;
                    droppedNewMetrics := 0 |} |}.

(** The operations a shard's map offers, and a run of them. *)
Inductive Op :=
| OpAddUntimed (metric : MetricUnion) (metadatas : list StagedMetadata)
| OpTick (target : Z)
| OpSetRuntimeOptions (o : RuntimeOptions)
| OpClose.

Definition step (op : Op) : MM unit :=
  match op with
  | OpAddUntimed metric metadatas => mapAddUntimed metric metadatas ;> ret tt
  | OpTick target => Tick target ;> ret tt
  | OpSetRuntimeOptions o => mapSetRuntimeOptions o
  | OpClose => Close
  end.

Fixpoint runOps (ops : list Op) : MM unit :=
  match ops with
  | [] => ret tt
  | op :: rest => step op ;> runOps rest
  end.

(** The key set of the ordered entry list. *)
Definition listKeys (m : metricMap) : list entryKey :=
  (fun node => heKey (snd node)) <$> entryList m.

(** The map and the list hold the same entries: the element addresses
    are distinct, no key occurs twice in the list, and the map sends a
    key to an element exactly when the list holds that element with
    that key. *)
Definition consistent (m : metricMap) : Prop :=
  NoDup (fst <$> entryList m)
  ∧ NoDup (listKeys m)
  ∧ (∀ node, node ∈ entryList m → (fst node < nextElement m)%nat)
  ∧ (∀ k elem_, entries m !! k = Some elem_
                ↔ ∃ p, (elem_, {| heKey := k; heEntry := p |}) ∈ entryList m).

(** The part of the map the agreement of map and list is about. *)
Definition shape (m : metricMap) : gmap entryKey nat * list (nat * hashedEntry) * nat :=
  (entries m, entryList m, nextElement m).

(** A computation that leaves the entries alone, however it ends. *)
Definition stable {A} (c : MM A) : Prop :=
  forall s, shape (mmap (snd (c s))) = shape (mmap s).

(** A computation that leaves the entries, the heap and the options
    alone, however it ends. *)
Definition quiet {A} (c : MM A) : Prop :=
  forall s,
    shape (mmap (snd (c s))) = shape (mmap s)
    /\ heap (snd (c s)) = heap s
    /\ mopts (mmap (snd (c s))) = mopts (mmap s).

(** A property of a state that only looks at the entries, the heap and the
    options. *)
Definition quietOnly (P : State -> Prop) : Prop :=
  forall s s',
    shape (mmap s') = shape (mmap s) -> heap s' = heap s ->
    mopts (mmap s') = mopts (mmap s) -> P s -> P s'.

(** The writer count [findOrCreate] starts from for key [k] and entry
    [p]: the count of the entry found, or the zero of an entry just reset. *)
Definition writersBefore (s : State) (k : entryKey) (p : nat) : Z :=
  if entries (mmap s) !! k is Some _ then numWriters (entryAt s p) else 0.

(** The map and the list of a state agree; they agree and do not hold
    the key [k]. *)
Definition agree (s : State) : Prop := consistent (mmap s).

Definition agreeWithout (k : entryKey) (s : State) : Prop :=
  consistent (mmap s) /\ entries (mmap s) !! k = None.

(** A property of a state that only looks at the entries. *)
Definition shapeOnly (P : State -> Prop) : Prop :=
  forall s s', shape (mmap s') = shape (mmap s) -> P s -> P s'.
End Map.

End Aggregator.

(** ** Message writer ([message_writer.go]) *)

Module Writer.

Local Open Scope go_scope.

(** [metadata]: the replicated shard id and the message id, both
    [uint64]. *)
Definition metadata : Type := Z * Z.

(** The collaborators of a message writer: the clock, the reference
    counted payloads, the message pool and the pooled messages. [Msg] is
    [*message] and [RefCountedMessage] the payload handed to [Write]. *)
Class Collaborators := {
  World : Type;
  RefCountedMessage : Type;
  Msg : Type;
  nowFn : World -> Z * World;
  IncRef : RefCountedMessage -> World -> World;
  mPoolGet : World -> Msg * World;
  msgReset : Msg -> metadata -> RefCountedMessage -> World -> World;
  msgAck : Msg -> World -> World
}.

Section Writer.
Context `{Collaborators}.

Record messageWriterMetrics := {
  writeAfterCutoff : Z;
  writeBeforeCutover : Z
}.

(** [messageWriterImpl] with its [acks] helper; the consumer writers
    and the retry machinery play no part in [Write] and [Ack]. *)
Record messageWriterImpl := {
  replicatedShardID : Z;
  msgID : Z;
  queue : list Msg;
  acks : gmap metadata Msg;
  cutOffNanos : Z;
  cutOverNanos : Z;
  isClosed : bool;
  m : messageWriterMetrics
}.

Definition WM (A : Type) : Type := M (messageWriterImpl * World) A.

Definition getWr : WM messageWriterImpl := fun s => (Returns (fst s), s).
Definition modifyWr (f : messageWriterImpl -> messageWriterImpl) : WM unit :=
  fun s => (Returns tt, (f (fst s), snd s)).
Definition liftW {A} (f : World -> A * World) : WM A :=
  fun s => (Returns (fst (f (snd s))), (fst s, snd (f (snd s)))).
Definition modifyW (f : World -> World) : WM unit :=
  fun s => (Returns tt, (fst s, f (snd s))).

Definition set_msgID (i : Z) (w : messageWriterImpl) : messageWriterImpl :=
  {| replicatedShardID := replicatedShardID w; msgID := i; queue := queue w;
     acks := acks w; cutOffNanos := cutOffNanos w;
     cutOverNanos := cutOverNanos w; isClosed := isClosed w; m := m w |}.
Definition set_queue (q : list Msg) (w : messageWriterImpl) : messageWriterImpl :=
  {| replicatedShardID := replicatedShardID w; msgID := msgID w; queue := q;
     acks := acks w; cutOffNanos := cutOffNanos w;
     cutOverNanos := cutOverNanos w; isClosed := isClosed w; m := m w |}.
Definition set_acks (a : gmap metadata Msg) (w : messageWriterImpl)
  : messageWriterImpl :=
  {| replicatedShardID := replicatedShardID w; msgID := msgID w;
     queue := queue w; acks := a; cutOffNanos := cutOffNanos w;
     cutOverNanos := cutOverNanos w; isClosed := isClosed w; m := m w |}.
Definition set_cutOffNanos (n : Z) (w : messageWriterImpl) : messageWriterImpl :=
  {| replicatedShardID := replicatedShardID w; msgID := msgID w;
     queue := queue w; acks := acks w; cutOffNanos := n;
     cutOverNanos := cutOverNanos w; isClosed := isClosed w; m := m w |}.
Definition set_cutOverNanos (n : Z) (w : messageWriterImpl) : messageWriterImpl :=
  {| replicatedShardID := replicatedShardID w; msgID := msgID w;
     queue := queue w; acks := acks w; cutOffNanos := cutOffNanos w;
     cutOverNanos := n; isClosed := isClosed w; m := m w |}.
Definition set_m (mt : messageWriterMetrics) (w : messageWriterImpl)
  : messageWriterImpl :=
  {| replicatedShardID := replicatedShardID w; msgID := msgID w;
     queue := queue w; acks := acks w; cutOffNanos := cutOffNanos w;
     cutOverNanos := cutOverNanos w; isClosed := isClosed w; m := mt |}.

Definition newMessageWriter (shard : Z) (mt : messageWriterMetrics)
  : messageWriterImpl :=
  {| replicatedShardID := shard; msgID := 0; queue := []; acks := ∅;
     cutOffNanos := 0; cutOverNanos := 0; isClosed := false; m := mt |}.

Definition acks_add (meta : metadata) (msg : Msg) : WM unit :=
  modifyWr (fun w => set_acks (<[meta := msg]> (acks w)) w).

Definition acks_remove (meta : metadata) : WM unit :=
  modifyWr (fun w => set_acks (delete meta (acks w)) w).

Definition acks_ack (meta : metadata) : WM unit :=
  w <- getWr ;
  match acks w !! meta with
  | None => ret tt
  | Some msg =>
      modifyWr (fun w => set_acks (delete meta (acks w)) w) ;>
      modifyW (msgAck msg)
  end.

Definition Ack (meta : metadata) : WM unit := acks_ack meta.

Definition isValidWriteWithLock (nowNanos : Z) : WM bool :=
  w <- getWr ;
  if (cutOffNanos w >? 0) && (nowNanos >=? cutOffNanos w) then
    modifyWr (fun w =>
      set_m {| writeAfterCutoff := writeAfterCutoff (m w) + 1;
               writeBeforeCutover := writeBeforeCutover (m w) |} w) ;>
    ret false
  else if (cutOverNanos w >? 0) && (nowNanos <? cutOverNanos w) then
    modifyWr (fun w =>
      set_m {| writeAfterCutoff := writeAfterCutoff (m w);
               writeBeforeCutover := writeBeforeCutover (m w) + 1 |} w) ;>
    ret false
  else ret true.

Definition Write (rm : RefCountedMessage) : WM unit :=
  nowNanos <- liftW nowFn ;
  isValid <- isValidWriteWithLock nowNanos ;
  if negb isValid then ret tt
  else
    modifyW (IncRef rm) ;>
    msg <- liftW mPoolGet ;
    modifyWr (fun w => set_msgID (wrapU64 (msgID w + 1)) w) ;>
    w <- getWr ;
    let meta : metadata := (replicatedShardID w, msgID w) in
    modifyW (msgReset msg meta rm) ;>
    acks_add meta msg ;>
    modifyWr (fun w => set_queue (queue w ++ [msg]) w).

Definition ReplicatedShardID : WM Z := w <- getWr ; ret (replicatedShardID w).
Definition CutoffNanos : WM Z := w <- getWr ; ret (cutOffNanos w).
Definition SetCutoffNanos (nanos : Z) : WM unit := modifyWr (set_cutOffNanos nanos).
Definition CutoverNanos : WM Z := w <- getWr ; ret (cutOverNanos w).
Definition SetCutoverNanos (nanos : Z) : WM unit := modifyWr (set_cutOverNanos nanos).
Definition QueueSize : WM nat := w <- getWr ; ret (length (queue w)).
End Writer.

(** *** Consumer writers and retries

    The collaborators of the retry loop: the consumer writers a message is
    written to, the state a pooled message keeps (how often it was
    written, when to retry it, whether it was dropped or acked, the
    metadata it was reset to), the pool messages go back to, and the
    backoff of the retry package with its random jitter. A method that
    only reads is a function of the world. *)
Class RetryCollaborators `{Collaborators} := {
  ConsumerWriter : Type;
  Marshaler : Type;
  WriteError : Type;
  cwAddress : ConsumerWriter -> string;
  cwWrite : ConsumerWriter -> Marshaler -> World -> option WriteError * World;
  msgIncWriteTimes : Msg -> World -> World;
  msgIncReads : Msg -> World -> World;
  msgDecReads : Msg -> World -> World;
  msgMarshaler : Msg -> World -> Marshaler * bool;
  msgWriteTimes : Msg -> World -> Z;
  msgRetryAtNanos : Msg -> World -> Z;
  msgSetRetryAtNanos : Msg -> Z -> World -> World;
  msgIsDroppedOrAcked : Msg -> World -> bool;
  msgMetadata : Msg -> World -> metadata;
  mPoolPut : Msg -> World -> World;
  BackoffNanos : Z -> World -> Z * World
}.

Section Retry.
Context `{RetryCollaborators}.

(** The counters and timers of [messageWriterMetrics] the retry loop
    writes; a timer keeps the durations recorded, the latest first. *)
Record retryMetrics := {
  writeSuccess : Z;
  oneConsumerWriteError : Z;
  allConsumersWriteError : Z;
  noWritersError : Z;
  retryBatchLatency : list Z;
  retryLatency : list Z
}.

Definition newRetryMetrics : retryMetrics :=
  {| writeSuccess := 0; oneConsumerWriteError := 0; allConsumersWriteError := 0;
     noWritersError := 0; retryBatchLatency := []; retryLatency := [] |}.

(** [messageWriterImpl] with the fields the retry loop and the consumer
    writer methods use beside those of [impl]: the consumer writers, the
    reused [toBeRetried] slice, and [opts.MessageRetryBatchSize()]. *)
Record retryingWriter := {
  impl : messageWriterImpl;
  consumerWriters : list ConsumerWriter;
  toBeRetried : list Msg;
  MessageRetryBatchSize : Z;
  rm : retryMetrics
}.

Definition RM (A : Type) : Type := M (retryingWriter * World) A.

Definition getR : RM retryingWriter := fun s => (Returns (fst s), s).
Definition modifyR (f : retryingWriter -> retryingWriter) : RM unit :=
  fun s => (Returns tt, (f (fst s), snd s)).
Definition liftRW {A} (f : World -> A * World) : RM A :=
  fun s => (Returns (fst (f (snd s))), (fst s, snd (f (snd s)))).
Definition modifyRW (f : World -> World) : RM unit :=
  fun s => (Returns tt, (fst s, f (snd s))).
Definition readRW {A} (f : World -> A) : RM A :=
  fun s => (Returns (f (snd s)), s).

Definition set_impl (i : messageWriterImpl) (w : retryingWriter) : retryingWriter :=
  {| impl := i; consumerWriters := consumerWriters w;
     toBeRetried := toBeRetried w;
     MessageRetryBatchSize := MessageRetryBatchSize w; rm := rm w |}.
Definition set_consumerWriters (c : list ConsumerWriter) (w : retryingWriter)
  : retryingWriter :=
  {| impl := impl w; consumerWriters := c; toBeRetried := toBeRetried w;
     MessageRetryBatchSize := MessageRetryBatchSize w; rm := rm w |}.
Definition set_toBeRetried (t : list Msg) (w : retryingWriter) : retryingWriter :=
  {| impl := impl w; consumerWriters := consumerWriters w; toBeRetried := t;
     MessageRetryBatchSize := MessageRetryBatchSize w; rm := rm w |}.
Definition set_rm (r : retryMetrics) (w : retryingWriter) : retryingWriter :=
  {| impl := impl w; consumerWriters := consumerWriters w;
     toBeRetried := toBeRetried w;
     MessageRetryBatchSize := MessageRetryBatchSize w; rm := r |}.

Definition inc_writeSuccess (n : Z) (r : retryMetrics) : retryMetrics :=
  {| writeSuccess := writeSuccess r + n;
     oneConsumerWriteError := oneConsumerWriteError r;
     allConsumersWriteError := allConsumersWriteError r;
     noWritersError := noWritersError r;
     retryBatchLatency := retryBatchLatency r; retryLatency := retryLatency r |}.
Definition inc_oneConsumerWriteError (n : Z) (r : retryMetrics) : retryMetrics :=
  {| writeSuccess := writeSuccess r;
     oneConsumerWriteError := oneConsumerWriteError r + n;
     allConsumersWriteError := allConsumersWriteError r;
     noWritersError := noWritersError r;
     retryBatchLatency := retryBatchLatency r; retryLatency := retryLatency r |}.
Definition inc_allConsumersWriteError (n : Z) (r : retryMetrics) : retryMetrics :=
  {| writeSuccess := writeSuccess r;
     oneConsumerWriteError := oneConsumerWriteError r;
     allConsumersWriteError := allConsumersWriteError r + n;
     noWritersError := noWritersError r;
     retryBatchLatency := retryBatchLatency r; retryLatency := retryLatency r |}.
Definition inc_noWritersError (n : Z) (r : retryMetrics) : retryMetrics :=
  {| writeSuccess := writeSuccess r;
     oneConsumerWriteError := oneConsumerWriteError r;
     allConsumersWriteError := allConsumersWriteError r;
     noWritersError := noWritersError r + n;
     retryBatchLatency := retryBatchLatency r; retryLatency := retryLatency r |}.
Definition record_retryBatchLatency (d : Z) (r : retryMetrics) : retryMetrics :=
  {| writeSuccess := writeSuccess r;
     oneConsumerWriteError := oneConsumerWriteError r;
     allConsumersWriteError := allConsumersWriteError r;
     noWritersError := noWritersError r;
     retryBatchLatency := d :: retryBatchLatency r;
     retryLatency := retryLatency r |}.
Definition record_retryLatency (d : Z) (r : retryMetrics) : retryMetrics :=
  {| writeSuccess := writeSuccess r;
     oneConsumerWriteError := oneConsumerWriteError r;
     allConsumersWriteError := allConsumersWriteError r;
     noWritersError := noWritersError r;
     retryBatchLatency := retryBatchLatency r;
     retryLatency := d :: retryLatency r |}.

Definition retryMetric (f : retryMetrics -> retryMetrics) : RM unit :=
  modifyR (fun w => set_rm (f (rm w)) w).

(** A method of the fields of [impl], run on the whole writer. *)
Definition onImpl {A} (c : WM A) : RM A :=
  fun s =>
    let r := c (impl (fst s), snd s) in
    (fst r, (set_impl (fst (snd r)) (fst s), snd (snd r))).

(** A writer as [newMessageWriter] builds it, for a retry batch size. *)
Definition newRetryingWriter (shard : Z) (mt : messageWriterMetrics)
    (batchSize : Z) : retryingWriter :=
  {| impl := newMessageWriter shard mt; consumerWriters := [];
     toBeRetried := []; MessageRetryBatchSize := batchSize;
     rm := newRetryMetrics |}.

(** [time.Time.Sub] of two times given in nanoseconds: the difference,
    kept within the range of a [time.Duration]. *)
Definition timeSub (t u : Z) : Z :=
  Z.max (- 2 ^ 63) (Z.min (2 ^ 63 - 1) (t - u)).

Definition nextRetryNanos (writeTimes nowNanos : Z) : RM Z :=
  backoff <- liftRW (BackoffNanos writeTimes) ;
  ret (wrap64 (nowNanos + backoff)).

(** The loop of [write] over the consumer writers: [n] turns are left,
    that is [i = start + l - n]. An index [i % l] below zero is out of
    range. *)
Fixpoint writeLoop (n : nat) (cws : list ConsumerWriter) (msg : Marshaler)
    (l : Z) (i : Z) : RM bool :=
  match n with
  | O => ret false
  | S n' =>
      let idx := Z.rem i l in
      match (if idx <? 0 then None else cws !! Z.to_nat idx) with
      | None => panic
      | Some cw =>
          err <- liftRW (cwWrite cw msg) ;
          match err with
          | Some _ =>
              retryMetric (inc_oneConsumerWriteError 1) ;>
              writeLoop n' cws msg l (i + 1)
          | None =>
              retryMetric (inc_writeSuccess 1) ;>
              ret true
          end
      end
  end.

(** [write]: [int(nowNanos) % l] divides by zero when there is no
    consumer writer. *)
Definition write (cws : list ConsumerWriter) (m_ : Msg) : RM unit :=
  modifyRW (msgIncWriteTimes m_) ;>
  modifyRW (msgIncReads m_) ;>
  '(msg, isValid) <- readRW (msgMarshaler m_) ;
  if negb (isValid : bool) then modifyRW (msgDecReads m_)
  else
    let l := Z.of_nat (length cws) in
    nowNanos <- liftRW nowFn ;
    if l =? 0 then panic
    else
      let start := Z.rem nowNanos l in
      written <- writeLoop (length cws) cws msg l start ;
      modifyRW (msgDecReads m_) ;>
      (if negb (written : bool)
       then retryMetric (inc_allConsumersWriteError 1)
       else ret tt) ;>
      writeTimes <- readRW (msgWriteTimes m_) ;
      retryAt <- nextRetryNanos writeTimes nowNanos ;
      modifyRW (msgSetRetryAtNanos m_ retryAt).

(** An element of the queue is named by its position. [Front] and [Next]
    are nil at the end of the list; removing the element at a position
    moves its successors one position down, and with them a cursor that
    names one of them. *)
Definition queueFront (q : list Msg) : option nat :=
  if q is [] then None else Some 0%nat.

Definition elementNext (q : list Msg) (i : nat) : option nat :=
  if (S i <? length q)%nat then Some (S i) else None.

Definition queueRemove (i : nat) : RM unit :=
  modifyR (fun w => set_impl (set_queue (delete i (queue (impl w))) (impl w)) w).

(** The loop of [retryBatchWithLock], with its variables [e], [next]
    and [iterated]. Each turn either leaves the loop or moves on by one
    element of the queue, so [fuel = len(queue)] turns are enough. *)
Fixpoint retryBatchLoop (fuel : nat) (nowNanos : Z) (e next : option nat)
    (iterated : Z) : RM (option nat) :=
  match e with
  | None => ret next
  | Some i =>
      match fuel with
      | O => panic
      | S fuel' =>
          let iterated := iterated + 1 in
          w <- getR ;
          if iterated >? MessageRetryBatchSize w then ret next
          else
            match queue (impl w) !! i with
            | None => panic
            | Some m_ =>
                let next := elementNext (queue (impl w)) i in
                if isClosed (impl w) then
                  meta <- readRW (msgMetadata m_) ;
                  onImpl (Ack meta) ;>
                  queueRemove i ;>
                  modifyRW (mPoolPut m_) ;>
                  retryBatchLoop fuel' nowNanos (Nat.pred <$> next)
                    (Nat.pred <$> next) iterated
                else
                  retryAt <- readRW (msgRetryAtNanos m_) ;
                  if retryAt >=? nowNanos then
                    retryBatchLoop fuel' nowNanos next next iterated
                  else
                    dropped <- readRW (msgIsDroppedOrAcked m_) ;
                    if (dropped : bool) then
                      meta <- readRW (msgMetadata m_) ;
                      onImpl (acks_remove meta) ;>
                      queueRemove i ;>
                      modifyRW (mPoolPut m_) ;>
                      retryBatchLoop fuel' nowNanos (Nat.pred <$> next)
                        (Nat.pred <$> next) iterated
                    else
                      modifyR (fun w => set_toBeRetried (toBeRetried w ++ [m_]) w) ;>
                      retryBatchLoop fuel' nowNanos next next iterated
            end
      end
  end.

Definition retryBatchWithLock (start : option nat) (nowNanos : Z)
  : RM (option nat * list Msg) :=
  modifyR (set_toBeRetried []) ;>
  w <- getR ;
  next <- retryBatchLoop (length (queue (impl w))) nowNanos start None 0 ;
  w <- getR ;
  ret (next, toBeRetried w).

Fixpoint writeEach (cws : list ConsumerWriter) (ms : list Msg) : RM unit :=
  match ms with
  | [] => ret tt
  | m_ :: rest => write cws m_ ;> writeEach cws rest
  end.

(** The loop of [retryUnacknowledged]. A batch that does not end the
    loop moves on by at least one element, so [fuel = len(queue)] turns
    are enough. *)
Fixpoint retryUnacknowledgedLoop (fuel : nat) (e : option nat) : RM unit :=
  match e with
  | None => ret tt
  | Some _ =>
      match fuel with
      | O => panic
      | S fuel' =>
          nowNanos <- liftRW nowFn ;
          '(e', toBeRetried_) <- retryBatchWithLock e nowNanos ;
          w <- getR ;
          let consumerWriters_ := consumerWriters w in
          if (length consumerWriters_ =? 0)%nat then
            retryMetric (inc_noWritersError (Z.of_nat (length toBeRetried_))) ;>
            t <- liftRW nowFn ;
            retryMetric (record_retryBatchLatency (timeSub t nowNanos)) ;>
            retryUnacknowledgedLoop fuel' e'
          else
            writeEach consumerWriters_ toBeRetried_ ;>
            t <- liftRW nowFn ;
            retryMetric (record_retryBatchLatency (timeSub t nowNanos)) ;>
            retryUnacknowledgedLoop fuel' e'
      end
  end.

Definition retryUnacknowledged : RM unit :=
  w <- getR ;
  let e := queueFront (queue (impl w)) in
  beforeRetry <- liftRW nowFn ;
  retryUnacknowledgedLoop (length (queue (impl w))) e ;>
  t <- liftRW nowFn ;
  retryMetric (record_retryLatency (timeSub t beforeRetry)).

Definition isEmpty : RM bool :=
  w <- getR ; ret (length (queue (impl w)) =? 0)%nat.

Definition AddConsumerWriter (cw : ConsumerWriter) : RM unit :=
  modifyR (fun w => set_consumerWriters (consumerWriters w ++ [cw]) w).

(** The loop of [RemoveConsumerWriter]. *)
Fixpoint removeLoop (addr : string) (cws newConsumerWriters : list ConsumerWriter)
  : list ConsumerWriter :=
  match cws with
  | [] => newConsumerWriters
  | cw :: rest =>
      if String.eqb (cwAddress cw) addr
      then removeLoop addr rest newConsumerWriters
      else removeLoop addr rest (newConsumerWriters ++ [cw])
  end.

(** [RemoveConsumerWriter]: [make] with the capacity
    [len(w.consumerWriters)-1] panics when that is negative. *)
Definition RemoveConsumerWriter (addr : string) : RM unit :=
  w <- getR ;
  if (length (consumerWriters w) =? 0)%nat then panic
  else
    modifyR (set_consumerWriters (removeLoop addr (consumerWriters w) [])).
End Retry.

End Writer.

(** ** Stand-in collaborators

    Small implementations of the collaborator interfaces, used to run the
    embedded code on concrete inputs. *)

Module Sim.

Import Aggregator.

(** Modelled from the spec: the rate limiter lives in its own package,
    outside the sources at hand. A bucket of [limitPerSecond] tokens that
    refills when the wall clock enters a new second; [IsAllowed(n)] takes
    [n] tokens if that many are left; [Reset] changes the limit and
    keeps what was taken. *)
Record limiter := {
  limitPerSecond : Z;
  period : Z;
  alignedLast : Z;
  taken : Z
}.

Definition second : Z := 1000000000.

Definition isAllowed (n : Z) (l : limiter) (now : Z) : bool * limiter :=
  let alignedNow := now `div` period l * period l in
  let taken0 := if alignedNow >? alignedLast l then 0 else taken l in
  let last := Z.max alignedNow (alignedLast l) in
  if taken0 + n <=? limitPerSecond l
  then (true, {| limitPerSecond := limitPerSecond l; period := period l;
                 alignedLast := last; taken := taken0 + n |})
  else (false, {| limitPerSecond := limitPerSecond l; period := period l;
                  alignedLast := last; taken := taken0 |}).

(** The state of the stand-ins: a clock, the list elements handed out so
    far, which of them were tombstoned, the samples added, and the entry
    pool. *)
Record simWorld := {
  clock : Z;
  nextElem : nat;
  tombstoned : list nat;
  added : list (nat * Z);
  returnedBatches : nat;
  freeEntries : list nat;
  nextEntry : nat
}.

Definition newWorld (now : Z) : simWorld :=
  {| clock := now; nextElem := 0; tombstoned := []; added := [];
     returnedBatches := 0; freeEntries := []; nextEntry := 0 |}.

Definition setClock (now : Z) (w : simWorld) : simWorld :=
  {| clock := now; nextElem := nextElem w; tombstoned := tombstoned w;
     added := added w; returnedBatches := returnedBatches w;
     freeEntries := freeEntries w; nextEntry := nextEntry w |}.

#[global] Instance types : MetricTypes := {|
  AggregationID := nat;
  StoragePolicy := nat;
  Pipeline := nat;
  pipelineEqual := Nat.eqb;
  pipelineClone := fun p => p;
  IsDefaultStoragePolicies := fun l => bool_decide (l = []);
  AggregationTypes := nat;
  Window := nat;
  resolutionWindow := fun sp => sp;
  RawID := nat;
  TimerValue := nat;
  TimerValPool := unit;
  uninitializedCutoverNanos := - 2 ^ 63
|}.

(** Aggregation ids from 64 on do not decompress; everything else
    succeeds. *)
#[global] Instance collaborators : Collaborators := {|
  World := simWorld;
  Limiter := limiter;
  Lists := unit;
  MetricList := nat;
  MetricElem := nat;
  ListElem := nat;
  nowFn := fun w => (clock w, w);
  limiterNew := fun limit =>
    {| limitPerSecond := limit; period := second; alignedLast := 0; taken := 0 |};
  limiterReset := fun limit l =>
    {| limitPerSecond := limit; period := period l; alignedLast := alignedLast l;
       taken := taken l |};
  limiterIsAllowed := fun n l w => (isAllowed n l (clock w), w);
  stagedMetadatasIsDefault := fun _ => false;
  decompress := fun id =>
    if (64 <=? id)%nat then Fail (errCollaborator 1) else OK id;
  elemPoolGet := fun _ w =>
    (nextElem w,
     {| clock := clock w; nextElem := S (nextElem w); tombstoned := tombstoned w;
        added := added w; returnedBatches := returnedBatches w;
        freeEntries := freeEntries w; nextEntry := nextEntry w |});
  elemResetSetData := fun _ _ _ _ _ w => (None, w);
  listsFindOrCreate := fun _ window w => (OK window, w);
  listPushBack := fun _ el w => (OK el, w);
  elemMarkAsTombstoned := fun le w =>
    {| clock := clock w; nextElem := nextElem w;
       tombstoned := le :: tombstoned w;
       added := added w; returnedBatches := returnedBatches w;
       freeEntries := freeEntries w; nextEntry := nextEntry w |};
  elemAddMetric := fun le t _ w =>
    (None,
     {| clock := clock w; nextElem := nextElem w; tombstoned := tombstoned w;
        added := (le, t) :: added w; returnedBatches := returnedBatches w;
        freeEntries := freeEntries w; nextEntry := nextEntry w |});
  elemID := fun _ _ => 0%nat;
  timerValPoolPut := fun _ _ w =>
    {| clock := clock w; nextElem := nextElem w; tombstoned := tombstoned w;
       added := added w; returnedBatches := S (returnedBatches w);
       freeEntries := freeEntries w; nextEntry := nextEntry w |};
  entryPoolGet := fun w =>
    match freeEntries w with
    | p :: rest =>
        (p, {| clock := clock w; nextElem := nextElem w;
               tombstoned := tombstoned w; added := added w;
               returnedBatches := returnedBatches w;
               freeEntries := rest; nextEntry := nextEntry w |})
    | [] =>
        (nextEntry w,
         {| clock := clock w; nextElem := nextElem w;
            tombstoned := tombstoned w; added := added w;
            returnedBatches := returnedBatches w;
            freeEntries := []; nextEntry := S (nextEntry w) |})
    end;
  entryPoolPut := fun p w =>
    {| clock := clock w; nextElem := nextElem w; tombstoned := tombstoned w;
       added := added w; returnedBatches := returnedBatches w;
       freeEntries := p :: freeEntries w; nextEntry := nextEntry w |};
  Murmur3Hash128 := fun id => (N.of_nat id, 0%N);
  ceilBatchPercent := fun n => ((n + 9) / 10)%nat;
  sleepFn := fun d w => setClock (clock w + d) w;
  metricListsTick := fun _ w => (Z.of_nat (nextElem w), w);
  metricListsClose := fun _ w => w;
  runtimeOptsCloserClose := fun w => w
|}.

Definition options : Options :=
  {| MaxTimerBatchSizePerWrite := 0; DefaultStoragePolicies := [10%nat];
     EntryTTL := second |}.

Definition runtimeOptions (valuesPerSecond : Z) : RuntimeOptions :=
  {| WriteValuesPerMetricLimitPerSecond := valuesPerSecond;
     WriteNewMetricLimitPerShardPerSecond := 0;
     WriteNewMetricNoLimitWarmupDuration := 0 |}.

(** A fresh entry as [NewEntry] returns it. *)
Definition newEntry (valuesPerSecond : Z) (w : simWorld) : Entry * simWorld :=
  snd (ResetSetData tt (runtimeOptions valuesPerSecond) options
         (allocatedEntry options, w)).

Definition counter (id : nat) : MetricUnion :=
  {| Type_ := CounterType; ID := id; BatchTimerVal := None; OwnsID := false;
     TimerValPool_ := None |}.

Definition batchTimer (id : nat) (vals : list nat) : MetricUnion :=
  {| Type_ := BatchTimerType; ID := id; BatchTimerVal := Some vals;
     OwnsID := false; TimerValPool_ := Some tt |}.

Definition pipelineMetadata (id : nat) (sps : list nat) : PipelineMetadata :=
  {| pmAggregationID := id; pmStoragePolicies := sps; pmPipeline := 0%nat |}.

Definition staged (cutover : Z) (pms : list PipelineMetadata) : StagedMetadata :=
  {| CutoverNanos := cutover; Tombstoned := false; Pipelines := pms |}.

(** Stand-ins for the message writer: payloads and messages are
    numbered; the world counts references, remembers what each pooled
    message was reset to, and which messages were acked. *)
Record writerWorld := {
  wclock : Z;
  refs : gmap nat Z;
  nextMsg : nat;
  resets : list (nat * Writer.metadata * nat);
  acked : list nat
}.

Definition newWriterWorld (now : Z) : writerWorld :=
  {| wclock := now; refs := ∅; nextMsg := 0; resets := []; acked := [] |}.

#[global] Instance writerCollaborators : Writer.Collaborators := {|
  Writer.World := writerWorld;
  Writer.RefCountedMessage := nat;
  Writer.Msg := nat;
  Writer.nowFn := fun w => (wclock w, w);
  Writer.IncRef := fun rm w =>
    {| wclock := wclock w; refs := <[rm := default 0 (refs w !! rm) + 1]> (refs w);
       nextMsg := nextMsg w; resets := resets w; acked := acked w |};
  Writer.mPoolGet := fun w =>
    (nextMsg w,
     {| wclock := wclock w; refs := refs w; nextMsg := S (nextMsg w);
        resets := resets w; acked := acked w |});
  Writer.msgReset := fun msg meta rm w =>
    {| wclock := wclock w; refs := refs w; nextMsg := nextMsg w;
       resets := (msg, meta, rm) :: resets w; acked := acked w |};
  Writer.msgAck := fun msg w =>
    {| wclock := wclock w; refs := refs w; nextMsg := nextMsg w;
       resets := resets w; acked := msg :: acked w |}
|}.

Definition newWriter : Writer.messageWriterImpl :=
  Writer.newMessageWriter 7
    {| Writer.writeAfterCutoff := 0; Writer.writeBeforeCutover := 0 |}.

(** Stand-ins for the retry loop: a consumer writer is its address and
    whether it takes writes; a message marshals to its own number, has the
    metadata it was last reset to, counts as acked once its [Ack] ran, and
    is due for a retry at once. *)
#[global] Instance retryCollaborators : Writer.RetryCollaborators := {|
  Writer.ConsumerWriter := string * bool;
  Writer.Marshaler := nat;
  Writer.WriteError := unit;
  Writer.cwAddress := fst;
  Writer.cwWrite := fun cw _ w => (if snd cw then None else Some tt, w);
  Writer.msgIncWriteTimes := fun _ w => w;
  Writer.msgIncReads := fun _ w => w;
  Writer.msgDecReads := fun _ w => w;
  Writer.msgMarshaler := fun m_ _ => (m_, true);
  Writer.msgWriteTimes := fun _ _ => 1;
  Writer.msgRetryAtNanos := fun _ _ => 0;
  Writer.msgSetRetryAtNanos := fun _ _ w => w;
  Writer.msgIsDroppedOrAcked := fun m_ w => bool_decide (m_ ∈ acked w);
  Writer.msgMetadata := fun m_ w =>
    default (0, 0)
      ((fun r => snd (fst r))
         <$> find (fun r => (fst (fst r) =? m_)%nat) (resets w));
  Writer.mPoolPut := fun _ w => w;
  Writer.BackoffNanos := fun writeTimes w => (writeTimes, w)
|}.

(** A writer with a retry batch size of two and the consumer writers
    given. *)
Definition retryingWriterOf (cws : list (string * bool)) : Writer.retryingWriter :=
  Writer.set_consumerWriters cws
    (Writer.newRetryingWriter 7
       {| Writer.writeAfterCutoff := 0; Writer.writeBeforeCutover := 0 |} 2).


(** Concrete inputs. *)

Definition metadatas1 : list StagedMetadata := [staged 0 [pipelineMetadata 1 []]].

(** A staged metadata whose second pipeline does not decompress. *)
Definition brokenStaged : StagedMetadata :=
  staged 5 [pipelineMetadata 2 [3%nat; 4%nat]; pipelineMetadata 70 []].

(** An entry without a rate limiter after one write of [metadatas1], at
    time 7. *)
Definition writtenOnce : outcome (option error) * (Entry * simWorld) :=
  addUntimed (counter 5) metadatas1 (newEntry 0 (newWorld 7)).


(** An entry limited to ten values a second that has taken nine. *)
Definition limitedEntry : Entry :=
  set_rateLimiter
    (Some {| limitPerSecond := 10; period := second; alignedLast := 0; taken := 9 |})
    (fst (newEntry 10 (newWorld 0))).

(** A new shard map over empty collaborators at time [now]. *)
Definition newState (now : Z) : State :=
  {| mmap := newMetricMap options tt (runtimeOptions 10); heap := ∅;
     world := newWorld now |}.

(** [n] writes of the same metric in a row, with what each returned. *)
Fixpoint writes (n : nat) (metric : MetricUnion) (metadatas : list StagedMetadata)
  : EM (list (option error)) :=
  match n with
  | O => ret []
  | S n' =>
      bind (AddUntimed metric metadatas) (fun err =>
      bind (writes n' metric metadatas) (fun errs => ret (err :: errs)))
  end.

(** A writer whose message id is the largest [uint64]. *)
Definition lastIdWriter : Writer.messageWriterImpl :=
  Writer.set_msgID (2 ^ 64 - 1) newWriter.
End Sim.

(** ** Proof support *)

Create HintDb stable.
Create HintDb writers.
Create HintDb quiet.

(** Unfolds the plumbing of an entry method, one layer at a time. *)
Ltac go_step :=
  unfold bind, ret, panic, Aggregator.getE, Aggregator.getW, Aggregator.modifyE,
    Aggregator.modifyW, Aggregator.liftW, Aggregator.incMetric in *;
  cbn [fst snd] in *.

(** A Hoare triple for a computation with panics: from a state in [P], a
    return value [a] comes with a state in [Q a], and a panic with a state
    in [E]. *)
Definition hoare {S A} (P : S -> Prop) (c : M S A) (Q : A -> S -> Prop)
    (E : S -> Prop) : Prop :=
  forall s, P s ->
    match c s with
    | (Returns a, s') => Q a s'
    | (Panics, s') => E s'
    end.

(** * Properties *)

(** ** Topology consistency accumulator *)

Section TCAFacts.
Import TCA.

Lemma run_length steps a : length (run steps a) = length steps.
Proof.
  revert a. induction steps as [|[h o] rest IH]; intros a; simpl; [done|].
  by rewrite IH.
Qed.

(** Once done, an accumulator keeps its verdict whatever arrives. *)
Lemma Add_done host o a : done a = true -> Add host o a = a.
Proof. intros Hd. unfold Add. by rewrite Hd. Qed.




End TCAFacts.

(** ** Aggregator entries *)

Section EntryFacts.
Import Aggregator.
Context `{Collaborators}.
Local Open Scope go_scope.

Lemma scan_none (t : Z) (metadatas : list StagedMetadata) (n : nat) :
  Forall (fun sm => t < CutoverNanos sm) metadatas ->
  scanStagedMetadatas t metadatas n = None.
Proof.
  intros Hall. induction n as [|idx IH]; simpl; [done|].
  destruct (metadatas !! idx) as [sm|] eqn:E; [|done].
  assert (t < CutoverNanos sm) as Hlt.
  { exact (Forall_lookup_1 _ _ _ _ Hall E). }
  destruct (Z.leb_spec (CutoverNanos sm) t); [lia|done].
Qed.

Lemma scan_found (t : Z) (before after : list StagedMetadata) (sm : StagedMetadata) (k : nat) :
  CutoverNanos sm <= t ->
  Forall (fun sm' => t < CutoverNanos sm') after ->
  (k <= length after)%nat ->
  scanStagedMetadatas t (before ++ sm :: after) (length before + 1 + k) = Some sm.
Proof.
  intros Hle Hall. induction k as [|k IH]; intros Hk.
  - replace (length before + 1 + 0)%nat with (S (length before)) by lia.
    simpl. rewrite list_lookup_middle by done.
    destruct (Z.leb_spec (CutoverNanos sm) t); [done|lia].
  - replace (length before + 1 + S k)%nat with (S (length before + 1 + k)) by lia.
    simpl.
    destruct (after !! k) as [sm'|] eqn:E.
    2:{ apply lookup_ge_None in E. lia. }
    assert ((before ++ sm :: after) !! (length before + 1 + k)%nat = Some sm') as ->.
    { rewrite lookup_app_r by lia.
      replace (length before + 1 + k - length before)%nat with (S k) by lia.
      exact E. }
    assert (t < CutoverNanos sm') as Hlt.
    { exact (Forall_lookup_1 _ _ _ _ Hall E). }
    destruct (Z.leb_spec (CutoverNanos sm') t); [lia|].
    apply IH. lia.
Qed.

(** C5: the active staged metadata is found by scanning from the last
    element backward and taking the first one whose cutover time is not
    after the current time, that is, the element all of whose successors
    cut over strictly later. An empty sequence gives the empty-metadatas
    error, and a non-empty one in which every element cuts over strictly
    after the current time gives the no-applicable-metadata error; each
    error is counted. *)
Theorem active_staged_metadata_selection (t : Z) (metadatas : list StagedMetadata)
    (e : Entry) (w : World) :
  (metadatas = [] ->
   activeStagedMetadataWithLock t metadatas (e, w)
   = (Returns (Fail errEmptyMetadatas),
      (set_metrics (inc_emptyMetadatas 1 (metrics e)) e, w)))
  /\ (metadatas <> [] ->
      Forall (fun sm => t < CutoverNanos sm) metadatas ->
      activeStagedMetadataWithLock t metadatas (e, w)
      = (Returns (Fail errNoApplicableMetadata),
         (set_metrics (inc_noApplicableMetadata 1 (metrics e)) e, w)))
  /\ (forall before sm after,
      metadatas = before ++ sm :: after ->
      CutoverNanos sm <= t ->
      Forall (fun sm' => t < CutoverNanos sm') after ->
      activeStagedMetadataWithLock t metadatas (e, w) = (Returns (OK sm), (e, w))).
Proof.
  repeat split.
  - intros ->. reflexivity.
  - intros Hne Hall. unfold activeStagedMetadataWithLock.
    destruct metadatas as [|sm rest]; [done|]. simpl length. cbn [Nat.eqb].
    rewrite scan_none by done. reflexivity.
  - intros before sm after -> Hle Hall. unfold activeStagedMetadataWithLock.
    destruct (length (before ++ sm :: after) =? 0)%nat eqn:E.
    { apply Nat.eqb_eq in E. rewrite length_app in E. simpl in E. lia. }
    replace (length (before ++ sm :: after))
      with (length before + 1 + length after)%nat
      by (rewrite length_app; simpl; lia).
    rewrite scan_found by (done || lia). reflexivity.
Qed.



Lemma applyValueRateLimit_denied (numValues : Z) (e : Entry) (w : World) l l' w' :
  rateLimiter e = Some l ->
  limiterIsAllowed numValues l w = (false, l', w') ->
  applyValueRateLimit numValues (e, w)
  = (Returns (Some errWriteValueRateLimitExceeded),
     (set_metrics
        (inc_droppedValues numValues (inc_valueRateLimitExceeded 1 (metrics e)))
        (set_rateLimiter (Some l') e), w')).
Proof.
  intros Hl Hdeny. unfold applyValueRateLimit, bind, getE, liftW. simpl.
  rewrite Hl. simpl. rewrite Hdeny. reflexivity.
Qed.

Lemma applyValueRateLimit_allowed (numValues : Z) (e : Entry) (w : World) l l' w' :
  rateLimiter e = Some l ->
  limiterIsAllowed numValues l w = (true, l', w') ->
  applyValueRateLimit numValues (e, w)
  = (Returns None, (set_rateLimiter (Some l') e, w')).
Proof.
  intros Hl Hok. unfold applyValueRateLimit, bind, getE, liftW. simpl.
  rewrite Hl. simpl. rewrite Hok. reflexivity.
Qed.

(** C6: when the entry has a value rate limiter, [AddUntimed] asks it
    first, for the batch length of a batch timer and for one value of a
    counter or gauge ([numValuesOf]), and keeps what the limiter deducted.
    When the limiter allows the write, ingestion starts from there. When it
    denies, the rate-limit-exceeded counter goes up by one and the
    dropped-values counter by the number of values, the entry is otherwise
    unchanged, no element receives anything (the collaborators are as the
    limiter left them, apart from a batch of timer values going back to
    its pool), and the write-value-rate-limit-exceeded error is returned. *)
Theorem value_rate_limit_applied_first (metric : MetricUnion)
    (metadatas : list StagedMetadata) (e : Entry) (w : World)
    (l l' : Limiter) (w' : World) (allowed : bool) :
  rateLimiter e = Some l ->
  limiterIsAllowed (numValuesOf metric) l w = (allowed, l', w') ->
  AddUntimed metric metadatas (e, w)
  = if allowed then
      match Type_ metric with
      | BatchTimerType =>
          (err <- writeBatchTimerWithMetadatas metric metadatas ;
           returnBatchTimerVal metric ;>
           ret err) (set_rateLimiter (Some l') e, w')
      | _ => addUntimed metric metadatas (set_rateLimiter (Some l') e, w')
      end
    else
      (Returns (Some errWriteValueRateLimitExceeded),
       (set_metrics
          (inc_droppedValues (numValuesOf metric)
             (inc_valueRateLimitExceeded 1 (metrics e)))
          (set_rateLimiter (Some l') e),
        match Type_ metric, BatchTimerVal metric, TimerValPool_ metric with
        | BatchTimerType, Some vals, Some pool => timerValPoolPut pool vals w'
        | _, _, _ => w'
        end)).
Proof.
  intros Hl Hallowed. unfold AddUntimed, numValuesOf in *.
  destruct allowed.
  - destruct (Type_ metric);
      unfold bind at 1;
      erewrite applyValueRateLimit_allowed by eauto; try reflexivity.
  - destruct (Type_ metric);
      unfold bind at 1;
      erewrite applyValueRateLimit_denied by eauto; try reflexivity.
    unfold returnBatchTimerVal.
    destruct (BatchTimerVal metric), (TimerValPool_ metric); reflexivity.
Qed.


Lemma updatePolicies_entry metric elemID_ pm sps newAggs e w :
  fst (snd (updatePolicies metric elemID_ pm sps newAggs (e, w))) = e.
Proof.
  revert newAggs w. induction sps as [|sp rest IH]; intros newAggs w; [done|].
  cbn [updatePolicies].
  destruct (contains newAggs (keyOf pm sp)); [apply IH|].
  go_step.
  destruct (index (aggregations e) (keyOf pm sp)) as [idx|].
  { destruct (aggregations e !! idx); [apply IH|done]. }
  destruct (decompress (aggregationID (keyOf pm sp))); [|done].
  destruct (Type_ metric); try done.
  all: destruct (fst (elemResetSetData _ _ _ _ _ _)); try done.
  all: destruct (lists e); try done.
  all: destruct (fst (listsFindOrCreate _ _ _)); try done.
  all: destruct (fst (listPushBack _ _ _)); try done.
  all: apply IH.
Qed.

Lemma updatePipelines_entry metric elemID_ pms newAggs e w :
  fst (snd (updatePipelines metric elemID_ pms newAggs (e, w))) = e.
Proof.
  revert newAggs w. induction pms as [|pm rest IH]; intros newAggs w; [done|].
  cbn [updatePipelines]. go_step.
  pose proof (updatePolicies_entry metric elemID_ pm
                (storagePolicies e (pmStoragePolicies pm)) newAggs e w) as Hp.
  destruct (updatePolicies metric elemID_ pm _ newAggs (e, w)) as [[r|] [e1 w1]];
    cbn [fst snd] in *; subst e1; [|done].
  destruct r; [apply IH|done].
Qed.

Lemma maybeCopyIDWithLock_state metric e w :
  snd (maybeCopyIDWithLock metric (e, w)) = (e, w)
  /\ exists id, fst (maybeCopyIDWithLock metric (e, w)) = Returns id.
Proof.
  unfold maybeCopyIDWithLock. destruct (OwnsID metric); [by eauto|].
  go_step. destruct (aggregations e); eauto.
Qed.

(** C4: when [updateMetadatasWithLock] returns an error, the entry is
    exactly what it was before the call; in particular its aggregation
    bindings, its cutover time and its default-metadatas flag are. *)
Theorem update_metadatas_error_keeps_bindings (metric : MetricUnion)
    (hasDefaultMetadatas_ : bool) (sm : StagedMetadata)
    (e : Entry) (w : World) (err : error) (e' : Entry) (w' : World) :
  updateMetadatasWithLock metric hasDefaultMetadatas_ sm (e, w)
  = (Returns (Some err), (e', w')) ->
  aggregations e' = aggregations e
  /\ cutoverNanos e' = cutoverNanos e
  /\ hasDefaultMetadatas e' = hasDefaultMetadatas e
  /\ e' = e.
Proof.
  intros Hupd.
  assert (e' = e) as ->; [|done].
  unfold updateMetadatasWithLock in Hupd.
  destruct (maybeCopyIDWithLock_state metric e w) as [Hs [id Hid]].
  unfold bind at 1 in Hupd.
  destruct (maybeCopyIDWithLock metric (e, w)) as [r s]; cbn [fst snd] in *.
  subst r s.
  unfold bind at 1 in Hupd.
  pose proof (updatePipelines_entry metric id (Pipelines sm) [] e w) as Hp.
  destruct (updatePipelines metric id (Pipelines sm) [] (e, w)) as [[r|] [e1 w1]];
    cbn [fst snd] in *; subst e1; [|done].
  destruct r as [newAggs|err'].
  - exfalso. go_step.
    assert (forall old s, exists s', tombstoneOutdated newAggs old s = (Returns tt, s')) as Ht.
    { induction old as [|val rest IH]; intros s; [by eexists|].
      cbn [tombstoneOutdated]. go_step.
      destruct (negb (contains newAggs (key val))); cbn [fst snd]; apply IH. }
    destruct (Ht (aggregations e) (e, w1)) as [s' Hs']. rewrite Hs' in Hupd. done.
  - unfold ret in Hupd. by inversion Hupd.
Qed.


Lemma index_lt vals k j : index vals k = Some j -> (j < length vals)%nat.
Proof.
  revert j. induction vals as [|v rest IH]; intros j; simpl; [done|].
  destruct (aggregationKey_Equal (key v) k).
  - intros [= <-]. lia.
  - destruct (index rest k) as [i|]; [|done]. intros [= <-].
    specialize (IH i eq_refl). lia.
Qed.


Lemma index_lookup vals k j : index vals k = Some j -> is_Some (vals !! j).
Proof. intros Hi. apply lookup_lt_is_Some. by eapply index_lt. Qed.
































Lemma keepsWriters_ret {A} (a : A) : keepsWriters (ret a).
Proof. by intros e w. Qed.

Lemma keepsWriters_panic {A} : keepsWriters (@panic _ A).
Proof. by intros e w. Qed.

Lemma keepsWriters_bind {A B} (c : EM A) (k : A -> EM B) :
  keepsWriters c -> (forall a, keepsWriters (k a)) -> keepsWriters (bind c k).
Proof.
  intros Hc Hk e w. unfold bind. specialize (Hc e w).
  destruct (c (e, w)) as [[a|] [e1 w1]]; cbn [fst snd] in *; [|done].
  by rewrite Hk.
Qed.

Lemma keepsWriters_getE : keepsWriters getE.
Proof. by intros e w. Qed.

Lemma keepsWriters_getW : keepsWriters getW.
Proof. by intros e w. Qed.

Lemma keepsWriters_liftW {A} (f : World -> A * World) : keepsWriters (liftW f).
Proof. by intros e w. Qed.

Lemma keepsWriters_modifyW f : keepsWriters (modifyW f).
Proof. by intros e w. Qed.

Lemma keepsWriters_modifyE f :
  (forall e, numWriters (f e) = numWriters e) -> keepsWriters (modifyE f).
Proof. intros Hf e w. apply Hf. Qed.

Lemma keepsWriters_incMetric f : keepsWriters (incMetric f).
Proof. by apply keepsWriters_modifyE. Qed.

Lemma keepsWriters_if {A} (b : bool) (c1 c2 : EM A) :
  keepsWriters c1 -> keepsWriters c2 -> keepsWriters (if b then c1 else c2).
Proof. by destruct b. Qed.

#[local] Hint Resolve keepsWriters_ret keepsWriters_panic keepsWriters_getE
  keepsWriters_getW keepsWriters_liftW keepsWriters_modifyW
  keepsWriters_incMetric : writers.

Lemma keepsWriters_activeStagedMetadataWithLock t mds :
  keepsWriters (activeStagedMetadataWithLock t mds).
Proof.
  unfold activeStagedMetadataWithLock.
  repeat first
    [ apply keepsWriters_bind; [|intros ?]
    | apply keepsWriters_if
    | solve [auto with writers]
    | match goal with |- keepsWriters (match ?x with _ => _ end) => destruct x end ].
Qed.

Lemma keepsWriters_shouldUpdateMetadatasWithLock sm :
  keepsWriters (shouldUpdateMetadatasWithLock sm).
Proof.
  unfold shouldUpdateMetadatasWithLock.
  repeat first
    [ apply keepsWriters_bind; [|intros ?]
    | apply keepsWriters_if
    | solve [auto with writers]
    | match goal with |- keepsWriters (match ?x with _ => _ end) => destruct x end ].
Qed.

Lemma keepsWriters_maybeCopyIDWithLock metric : keepsWriters (maybeCopyIDWithLock metric).
Proof.
  unfold maybeCopyIDWithLock.
  repeat first
    [ apply keepsWriters_bind; [|intros ?]
    | apply keepsWriters_if
    | solve [auto with writers]
    | match goal with |- keepsWriters (match ?x with _ => _ end) => destruct x end ].
Qed.

Lemma keepsWriters_updatePolicies metric elemID_ pm sps newAggs :
  keepsWriters (updatePolicies metric elemID_ pm sps newAggs).
Proof.
  revert newAggs. induction sps as [|sp rest IH]; intros newAggs; cbn [updatePolicies].
  { auto with writers. }
  cbv zeta.
  repeat first
    [ apply IH
    | apply keepsWriters_bind; [|intros ?]
    | apply keepsWriters_if
    | solve [auto with writers]
    | match goal with |- keepsWriters (match ?x with _ => _ end) => destruct x end ].
Qed.

Lemma keepsWriters_updatePipelines metric elemID_ pms newAggs :
  keepsWriters (updatePipelines metric elemID_ pms newAggs).
Proof.
  revert newAggs. induction pms as [|pm rest IH]; intros newAggs; cbn [updatePipelines].
  { auto with writers. }
  repeat first
    [ apply IH
    | apply keepsWriters_updatePolicies
    | apply keepsWriters_bind; [|intros ?]
    | solve [auto with writers]
    | match goal with |- keepsWriters (match ?x with _ => _ end) => destruct x end ].
Qed.

Lemma keepsWriters_tombstoneOutdated newAggs old :
  keepsWriters (tombstoneOutdated newAggs old).
Proof.
  induction old as [|val rest IH]; cbn [tombstoneOutdated]; [auto with writers|].
  apply keepsWriters_bind; [|by intros ?].
  apply keepsWriters_if; auto with writers.
Qed.

Lemma keepsWriters_tombstoneAll vals : keepsWriters (tombstoneAll vals).
Proof.
  induction vals as [|val rest IH]; cbn [tombstoneAll]; [auto with writers|].
  apply keepsWriters_bind; [auto with writers|by intros ?].
Qed.

Lemma keepsWriters_updateMetadatasWithLock metric hd sm :
  keepsWriters (updateMetadatasWithLock metric hd sm).
Proof.
  unfold updateMetadatasWithLock.
  repeat first
    [ apply keepsWriters_maybeCopyIDWithLock
    | apply keepsWriters_updatePipelines
    | apply keepsWriters_tombstoneOutdated
    | apply keepsWriters_modifyE; by intros ?
    | apply keepsWriters_bind; [|intros ?]
    | solve [auto with writers]
    | match goal with |- keepsWriters (match ?x with _ => _ end) => destruct x end ].
Qed.

Lemma keepsWriters_addMetricLoop t mu vals errs :
  keepsWriters (addMetricLoop t mu vals errs).
Proof.
  revert errs. induction vals as [|val rest IH]; intros errs; cbn [addMetricLoop].
  { auto with writers. }
  apply keepsWriters_bind; [auto with writers|]. intros [err|]; apply IH.
Qed.

Lemma keepsWriters_addMetricWithLock t mu : keepsWriters (addMetricWithLock t mu).
Proof.
  unfold addMetricWithLock.
  apply keepsWriters_bind; [auto with writers|]. intros e.
  apply keepsWriters_bind; [apply keepsWriters_addMetricLoop|]. intros errs.
  auto with writers.
Qed.

Lemma keepsWriters_addUntimed metric mds : keepsWriters (addUntimed metric mds).
Proof.
  unfold addUntimed, recordLastAccessed. cbv zeta.
  repeat first
    [ apply keepsWriters_addMetricWithLock
    | apply keepsWriters_activeStagedMetadataWithLock
    | apply keepsWriters_shouldUpdateMetadatasWithLock
    | apply keepsWriters_updateMetadatasWithLock
    | apply keepsWriters_modifyE; by intros ?
    | apply keepsWriters_bind; [|intros ?]
    | apply keepsWriters_if
    | solve [auto with writers]
    | match goal with |- keepsWriters (match ?x with _ => _ end) => destruct x end ].
Qed.

Lemma keepsWriters_writeBatchTimerLoop fuel metric mds vals max start :
  keepsWriters (writeBatchTimerLoop fuel metric mds vals max start).
Proof.
  revert start. induction fuel as [|fuel IH]; intros start; cbn [writeBatchTimerLoop];
    cbv zeta.
  { apply keepsWriters_if; auto with writers. }
  apply keepsWriters_if; [|auto with writers].
  apply keepsWriters_if; [auto with writers|].
  apply keepsWriters_bind; [apply keepsWriters_addUntimed|].
  intros [err|]; [auto with writers|apply IH].
Qed.

Lemma keepsWriters_applyValueRateLimit n : keepsWriters (applyValueRateLimit n).
Proof.
  unfold applyValueRateLimit.
  repeat first
    [ apply keepsWriters_modifyE; by intros ?
    | apply keepsWriters_bind; [|intros ?]
    | apply keepsWriters_if
    | solve [auto with writers]
    | match goal with |- keepsWriters (match ?x with _ => _ end) => destruct x end ].
Qed.

(** The entry's own [AddUntimed] never touches the writer count. *)
Lemma keepsWriters_AddUntimed metric mds : keepsWriters (AddUntimed metric mds).
Proof.
  unfold AddUntimed, writeBatchTimerWithMetadatas, returnBatchTimerVal. cbv zeta.
  repeat first
    [ apply keepsWriters_applyValueRateLimit
    | apply keepsWriters_addUntimed
    | apply keepsWriters_writeBatchTimerLoop
    | apply keepsWriters_bind; [|intros ?]
    | apply keepsWriters_if
    | solve [auto with writers]
    | match goal with |- keepsWriters (match ?x with _ => _ end) => destruct x end ].
Qed.

End EntryFacts.

(** ** The per-shard map *)

Section MapFacts.
Import Aggregator.
Context `{Collaborators}.
Local Open Scope go_scope.

Lemma hoare_ret {S A} (P : S -> Prop) (a : A) (Q : A -> S -> Prop) E :
  (forall s, P s -> Q a s) -> hoare P (ret a) Q E.
Proof. intros HQ s Hs. by apply HQ. Qed.

Lemma hoare_panic {S A} (P : S -> Prop) (Q : A -> S -> Prop) (E : S -> Prop) :
  (forall s, P s -> E s) -> hoare P panic Q E.
Proof. intros HE s Hs. by apply HE. Qed.

Lemma hoare_bind {S A B} (P : S -> Prop) (c : M S A) (k : A -> M S B)
    (Q1 : A -> S -> Prop) (Q : B -> S -> Prop) E :
  hoare P c Q1 E -> (forall a, hoare (Q1 a) (k a) Q E) -> hoare P (bind c k) Q E.
Proof.
  intros Hc Hk s Hs. unfold bind. specialize (Hc s Hs).
  destruct (c s) as [[a|] s1]; [by apply Hk|done].
Qed.

Lemma hoare_weaken {S A} (P P' : S -> Prop) (c : M S A) (Q Q' : A -> S -> Prop)
    (E E' : S -> Prop) :
  hoare P' c Q' E' -> (forall s, P s -> P' s) -> (forall a s, Q' a s -> Q a s) ->
  (forall s, E' s -> E s) -> hoare P c Q E.
Proof.
  intros Hc HP HQ HE s Hs. specialize (Hc s (HP s Hs)).
  destruct (c s) as [[a|] s1]; auto.
Qed.

Lemma hoare_if {S A} (b : bool) (P : S -> Prop) (c1 c2 : M S A) Q E :
  hoare P c1 Q E -> hoare P c2 Q E -> hoare P (if b then c1 else c2) Q E.
Proof. by destruct b. Qed.

Lemma stable_ret {A} (a : A) : stable (ret a).
Proof. by intros s. Qed.

Lemma stable_panic {A} : stable (@panic State A).
Proof. by intros s. Qed.

Lemma stable_bind {A B} (c : MM A) (k : A -> MM B) :
  stable c -> (forall a, stable (k a)) -> stable (bind c k).
Proof.
  intros Hc Hk s. unfold bind. specialize (Hc s).
  destruct (c s) as [[a|] s1]; cbn [snd] in *; [|done].
  by rewrite Hk.
Qed.

Lemma stable_getM : stable getM.
Proof. by intros s. Qed.

Lemma stable_onEntry {A} p (c : EM A) : stable (onEntry p c).
Proof. by intros s. Qed.

Lemma stable_liftWorld {A} (f : World -> A * World) : stable (liftWorld f).
Proof. by intros s. Qed.

Lemma stable_modifyWorld (f : World -> World) : stable (modifyWorld f).
Proof. by intros s. Qed.

Lemma stable_modifyM (f : metricMap -> metricMap) :
  (forall m, shape (f m) = shape m) -> stable (modifyM f).
Proof. intros Hf s. apply Hf. Qed.

Lemma stable_incMapMetric f : stable (incMapMetric f).
Proof. by apply stable_modifyM. Qed.

Lemma stable_if {A} (b : bool) (c1 c2 : MM A) :
  stable c1 -> stable c2 -> stable (if b then c1 else c2).
Proof. by destruct b. Qed.

#[local] Hint Resolve stable_ret stable_panic stable_getM stable_onEntry
  stable_liftWorld stable_modifyWorld stable_incMapMetric : stable.

Lemma stable_lookupEntryWithLock k : stable (lookupEntryWithLock k).
Proof. unfold lookupEntryWithLock.
  repeat first
    [ apply stable_bind; [|intros ?]
    | apply stable_if
    | apply stable_modifyM; by intros ?
    | solve [auto with stable]
    | match goal with
      | |- stable (match ?x with _ => _ end) => destruct x
      end ]. Qed.

Lemma stable_applyNewMetricRateLimitWithLock now :
  stable (applyNewMetricRateLimitWithLock now).
Proof. unfold applyNewMetricRateLimitWithLock.
  repeat first
    [ apply stable_bind; [|intros ?]
    | apply stable_if
    | apply stable_modifyM; by intros ?
    | solve [auto with stable]
    | match goal with
      | |- stable (match ?x with _ => _ end) => destruct x
      end ]. Qed.

Lemma stable_resetMapRateLimiterWithLock ro : stable (resetMapRateLimiterWithLock ro).
Proof. unfold resetMapRateLimiterWithLock.
  repeat first
    [ apply stable_bind; [|intros ?]
    | apply stable_if
    | apply stable_modifyM; by intros ?
    | solve [auto with stable]
    | match goal with
      | |- stable (match ?x with _ => _ end) => destruct x
      end ]. Qed.

(** A property of the entries holds after a stable computation when it
    held before. *)
Lemma hoare_stable {A} (c : MM A) (P : State -> Prop) :
  stable c ->
  (forall s s', shape (mmap s') = shape (mmap s) -> P s -> P s') ->
  hoare P c (fun _ => P) P.
Proof.
  intros Hc HP s Hs. specialize (Hc s).
  destruct (c s) as [[a|] s1]; cbn [snd] in *; by eapply HP.
Qed.

Lemma consistent_shape m m' : shape m' = shape m -> consistent m -> consistent m'.
Proof.
  unfold shape, consistent, listKeys. intros [= He Hl Hn]. by rewrite He, Hl, Hn.
Qed.

Lemma consistent_new o ls ro : consistent (newMetricMap o ls ro).
Proof.
  repeat split; cbn; try apply NoDup_nil_2.
  - by intros node ?%elem_of_nil.
  - by rewrite lookup_empty.
  - by intros [p ?%elem_of_nil].
Qed.

Lemma NoDup_fst_unique {A B} (l : list (A * B)) x y1 y2 :
  NoDup (l.*1) -> (x, y1) ∈ l -> (x, y2) ∈ l -> y1 = y2.
Proof.
  induction l as [|[x0 y0] l IH]; cbn; intros Hnd H1 H2.
  { by apply elem_of_nil in H1. }
  apply NoDup_cons in Hnd as [Hnotin Hnd].
  apply elem_of_cons in H1 as [H1|H1]; apply elem_of_cons in H2 as [H2|H2].
  - congruence.
  - inversion H1; subst. exfalso. apply Hnotin.
    apply list_elem_of_fmap. by exists (x0, y2).
  - inversion H2; subst. exfalso. apply Hnotin.
    apply list_elem_of_fmap. by exists (x0, y1).
  - by apply IH.
Qed.

Lemma consistent_insert m k p :
  consistent m -> entries m !! k = None ->
  consistent (set_entries (<[k := nextElement m]> (entries m))
                (entryList m ++ [(nextElement m, {| heKey := k; heEntry := p |})])
                (S (nextElement m)) m).
Proof.
  intros (Hids & Hkeys & Hlt & Hiff) Hnone. unfold consistent, listKeys in *. cbn.
  rewrite !fmap_app. cbn.
  assert (forall p', (nextElement m, p') ∉ entryList m) as Hfresh.
  { intros p' Hin. specialize (Hlt _ Hin). cbn in Hlt. lia. }
  repeat split.
  - apply NoDup_app. split; [done|]. split; [|apply NoDup_singleton].
    intros x Hx Hx'. apply list_elem_of_singleton in Hx'. subst x.
    apply list_elem_of_fmap in Hx as ([i he] & Hi & Hin). cbn in Hi. subst i.
    by eapply Hfresh.
  - apply NoDup_app. split; [done|]. split; [|apply NoDup_singleton].
    intros x Hx Hx'. apply list_elem_of_singleton in Hx'. subst x.
    apply list_elem_of_fmap in Hx as ([i [k' p']] & Hk & Hin). cbn in Hk. subst k'.
    assert (entries m !! k = Some i) as Hsome by (apply Hiff; eauto).
    congruence.
  - intros node [Hin|Heq]%elem_of_app.
    + specialize (Hlt _ Hin). lia.
    + apply list_elem_of_singleton in Heq. subst node. cbn. lia.
  - intros Hl. destruct (decide (k = k0)) as [<-|Hne].
    + rewrite lookup_insert_eq in Hl. inversion Hl; subst. exists p.
      apply elem_of_app. right. by apply list_elem_of_singleton.
    + rewrite lookup_insert_ne in Hl by done. apply Hiff in Hl as [p' Hin].
      exists p'. apply elem_of_app. by left.
  - intros [p' [Hin|Heq]%elem_of_app].
    + assert (entries m !! k0 = Some elem_) as Hsome by (apply Hiff; eauto).
      destruct (decide (k = k0)) as [<-|Hne]; [congruence|].
      by rewrite lookup_insert_ne.
    + apply list_elem_of_singleton in Heq. inversion Heq; subst.
      apply lookup_insert_eq.
Qed.

Lemma consistent_remove m k elem_ :
  consistent m -> entries m !! k = Some elem_ ->
  consistent (set_entries (delete k (entries m))
                (listRemove elem_ (entryList m)) (nextElement m) m).
Proof.
  intros (Hids & Hkeys & Hlt & Hiff) Hsome. unfold consistent, listKeys, listRemove in *.
  cbn.
  assert (forall node, node ∈ filter (fun node => fst node ≠ elem_) (entryList m)
                       <-> fst node ≠ elem_ /\ node ∈ entryList m) as Hf.
  { intros node. by rewrite list_elem_of_filter. }
  repeat split.
  - eapply sublist_NoDup; [exact Hids|apply fmap_sublist, sublist_filter].
  - eapply sublist_NoDup; [exact Hkeys|apply fmap_sublist, sublist_filter].
  - intros node [_ Hin]%Hf. by apply Hlt.
  - intros Hl. apply lookup_delete_Some in Hl as [Hne Hl].
    apply Hiff in Hl as [p Hin]. exists p. apply Hf. split; [|done]. cbn.
    intros ->. apply Hiff in Hsome as [p' Hin'].
    pose proof (NoDup_fst_unique _ _ _ _ Hids Hin Hin') as Heq.
    inversion Heq. by subst.
  - intros [p [Hne Hin]%Hf]. cbn in Hne.
    assert (entries m !! k0 = Some elem_0) as Hl by (apply Hiff; eauto).
    apply lookup_delete_Some. split; [|done]. intros ->. congruence.
Qed.

Lemma shapeOnly_agree : shapeOnly agree.
Proof. intros s s' Hsh. by apply consistent_shape. Qed.

Lemma shapeOnly_agreeWithout k : shapeOnly (agreeWithout k).
Proof.
  intros s s' Hsh [Hc Hn]. split; [by eapply consistent_shape|].
  unfold shape in Hsh. inversion Hsh as [[He Hl Hx]]. by rewrite He.
Qed.

Lemma agreeWithout_agree k s : agreeWithout k s -> agree s.
Proof. by intros [? _]. Qed.

#[local] Hint Resolve shapeOnly_agree shapeOnly_agreeWithout agreeWithout_agree : stable.

(** Running a stable computation first keeps a property of the entries
    for what follows. *)
Lemma hoare_bind_stable {A B} (c : MM A) (k : A -> MM B) (P : State -> Prop) Q E :
  stable c -> shapeOnly P -> (forall s, P s -> E s) ->
  (forall a, hoare P (k a) Q E) -> hoare P (bind c k) Q E.
Proof.
  intros Hc HP HE Hk s Hs. unfold bind. specialize (Hc s).
  destruct (c s) as [[a|] s1]; cbn [snd] in *.
  - apply Hk. by eapply HP.
  - apply HE. by eapply HP.
Qed.

Lemma hoare_pre {S A} (P P' : S -> Prop) (c : M S A) Q E :
  (forall s, P s -> P' s) -> hoare P' c Q E -> hoare P c Q E.
Proof. intros HP Hc s Hs. by apply Hc, HP. Qed.

Lemma hoare_lookupEntryWithLock k :
  hoare agree (lookupEntryWithLock k)
        (fun found s => if found is None then agreeWithout k s else agree s) agree.
Proof.
  intros s Hs. unfold lookupEntryWithLock, bind, getM, ret, panic. cbn.
  destruct (entries (mmap s) !! k) eqn:E; cbn; [|done].
  destruct (elementValue _ _); cbn; done.
Qed.

Lemma hoare_findOrCreate k : hoare agree (findOrCreate k) (fun _ => agree) agree.
Proof.
  unfold findOrCreate.
  apply hoare_bind_stable; [solve [eauto with stable]..|]. intros m.
  apply hoare_if; [by apply hoare_ret|].
  eapply hoare_bind; [apply hoare_lookupEntryWithLock|]. intros [entry|].
  { eapply hoare_pre with (P' := agree); [by intros s Hs|].
    apply hoare_bind_stable; [solve [eauto with stable]..|]. intros ?.
    by apply hoare_ret. }
  eapply hoare_pre with (P' := agreeWithout k); [by intros s Hs|].
  apply hoare_bind_stable; [solve [eauto with stable]..|]. intros m'.
  apply hoare_if; [apply hoare_ret; eauto with stable|].
  apply hoare_bind_stable;
    [apply stable_lookupEntryWithLock|solve [eauto with stable]..|]. intros [entry|].
  { eapply hoare_pre; [apply agreeWithout_agree|].
    apply hoare_bind_stable; [solve [eauto with stable]..|]. intros ?. by apply hoare_ret. }
  apply hoare_bind_stable; [solve [eauto with stable]..|]. intros now.
  apply hoare_bind_stable; [|solve [eauto with stable]..|].
  { destruct (firstInsertAt m'); [apply stable_ret|by apply stable_modifyM]. }
  intros ?.
  apply hoare_bind_stable;
    [apply stable_applyNewMetricRateLimitWithLock|solve [eauto with stable]..|].
  intros [err|]; [apply hoare_ret; eauto with stable|].
  apply hoare_bind_stable; [solve [eauto with stable]..|]. intros entry.
  apply hoare_bind_stable; [solve [eauto with stable]..|]. intros m''.
  apply hoare_bind_stable; [solve [eauto with stable]..|]. intros ?.
  eapply hoare_bind with (Q1 := fun _ => agree).
  { intros s [Hc Hn]. cbn. by apply consistent_insert. }
  intros ?.
  apply hoare_bind_stable; [solve [eauto with stable]..|]. intros ?.
  apply hoare_bind_stable; [solve [eauto with stable]..|]. intros ?.
  by apply hoare_ret.
Qed.

Lemma hoare_stable_agree {A} (c : MM A) :
  stable c -> hoare agree c (fun _ => agree) agree.
Proof. intros Hc. exact (hoare_stable c agree Hc shapeOnly_agree). Qed.

Lemma hoare_mapAddUntimed metric metadatas :
  hoare agree (mapAddUntimed metric metadatas) (fun _ => agree) agree.
Proof.
  unfold mapAddUntimed. cbv zeta.
  eapply hoare_bind; [apply hoare_findOrCreate|]. intros [entry|err].
  - apply hoare_bind_stable; [solve [eauto with stable]..|]. intros ?.
    apply hoare_bind_stable; [solve [eauto with stable]..|]. intros ?.
    by apply hoare_ret.
  - by apply hoare_ret.
Qed.

Lemma hoare_purgeLoop now es n : hoare agree (purgeLoop now es n) (fun _ => agree) agree.
Proof.
  revert n. induction es as [|he rest IH]; intros n; cbn [purgeLoop].
  { by apply hoare_ret. }
  apply hoare_bind_stable; [solve [eauto with stable]..|]. intros [|]; [|apply IH].
  eapply hoare_bind with (Q1 := fun m s => agree s /\ m = mmap s).
  { by intros s Hs. }
  intros m. destruct (entries m !! heKey he) as [elem_|] eqn:El.
  - eapply hoare_bind with (Q1 := fun _ => agree); [|intros ?; apply IH].
    intros s [Hs ->]. cbn. by apply consistent_remove.
  - apply hoare_panic. by intros s [? _].
Qed.

Lemma hoare_purgeExpired now es : hoare agree (purgeExpired now es) (fun _ => agree) agree.
Proof.
  unfold purgeExpired. apply hoare_if; [by apply hoare_ret|apply hoare_purgeLoop].
Qed.

Lemma hoare_callEach {A} (entryFn : hashedEntry -> A -> MM A) currEntries a :
  (forall entry a, hoare agree (entryFn entry a) (fun _ => agree) agree) ->
  hoare agree (callEach entryFn currEntries a) (fun _ => agree) agree.
Proof.
  intros Hfn. revert a. induction currEntries as [|entry rest IH]; intros a; cbn.
  { by apply hoare_ret. }
  eapply hoare_bind; [apply Hfn|]. intros a'. apply IH.
Qed.

Lemma hoare_forEachLoop {A} fuel batchSize (entryFn : hashedEntry -> A -> MM A)
    currElem a :
  (forall entry a, hoare agree (entryFn entry a) (fun _ => agree) agree) ->
  hoare agree (forEachLoop fuel batchSize entryFn currElem a) (fun _ => agree) agree.
Proof.
  intros Hfn. revert currElem a. induction fuel as [|fuel IH]; intros currElem a.
  - destruct currElem; cbn; [by apply hoare_panic|by apply hoare_ret].
  - destruct currElem as [cur|]; cbn [forEachLoop]; [|by apply hoare_ret].
    apply hoare_bind_stable; [solve [eauto with stable]..|]. intros m.
    destruct (elementsFrom cur (entryList m)); [by apply hoare_panic|].
    cbv zeta. eapply hoare_bind; [by apply hoare_callEach|]. intros a'. apply IH.
Qed.

Lemma hoare_forEachEntry {A} (entryFn : hashedEntry -> A -> MM A) a :
  (forall entry a, hoare agree (entryFn entry a) (fun _ => agree) agree) ->
  hoare agree (forEachEntry entryFn a) (fun _ => agree) agree.
Proof.
  intros Hfn. unfold forEachEntry.
  apply hoare_bind_stable; [solve [eauto with stable]..|]. intros m. cbv zeta.
  apply hoare_if; [by apply hoare_ret|by apply hoare_forEachLoop].
Qed.

Lemma hoare_deleteExpiredFn start perEntry entry st :
  hoare agree (deleteExpiredFn start perEntry entry st) (fun _ => agree) agree.
Proof.
  unfold deleteExpiredFn.
  apply hoare_bind_stable; [solve [eauto with stable]..|]. intros now.
  apply hoare_bind_stable; [|solve [eauto with stable]..|].
  { apply stable_if; [|apply stable_ret]. cbv zeta.
    apply stable_if; auto with stable. }
  intros ?.
  apply hoare_bind_stable; [solve [eauto with stable]..|]. intros should. cbv zeta.
  apply hoare_if; [|by apply hoare_ret].
  eapply hoare_bind; [apply hoare_purgeExpired|]. intros n. by apply hoare_ret.
Qed.

Lemma hoare_deleteExpired target : hoare agree (deleteExpired target) (fun _ => agree) agree.
Proof.
  unfold deleteExpired.
  apply hoare_bind_stable; [solve [eauto with stable]..|]. intros m. cbv zeta.
  apply hoare_if; [by apply hoare_ret|].
  apply hoare_bind_stable; [solve [eauto with stable]..|]. intros start.
  eapply hoare_bind;
    [apply hoare_forEachEntry; intros; apply hoare_deleteExpiredFn|]. intros st.
  apply hoare_bind_stable; [solve [eauto with stable]..|]. intros now.
  eapply hoare_bind; [apply hoare_purgeExpired|]. intros n. by apply hoare_ret.
Qed.

Lemma hoare_Tick target : hoare agree (Tick target) (fun _ => agree) agree.
Proof.
  unfold Tick.
  eapply hoare_bind; [apply hoare_deleteExpired|]. intros n.
  apply hoare_bind_stable; [solve [eauto with stable]..|]. intros m. cbv zeta.
  apply hoare_bind_stable; [solve [eauto with stable]..|]. intros ?.
  by apply hoare_ret.
Qed.

Lemma hoare_mapSetRuntimeOptions o :
  hoare agree (mapSetRuntimeOptions o) (fun _ => agree) agree.
Proof.
  unfold mapSetRuntimeOptions.
  apply hoare_bind_stable; [by apply stable_modifyM|solve [eauto with stable]..|].
  intros ?.
  apply hoare_bind_stable;
    [apply stable_resetMapRateLimiterWithLock|solve [eauto with stable]..|].
  intros ?. apply hoare_forEachEntry. intros entry u.
  apply hoare_stable_agree, stable_onEntry.
Qed.

Lemma hoare_Close : hoare agree Close (fun _ => agree) agree.
Proof.
  unfold Close.
  apply hoare_bind_stable; [solve [eauto with stable]..|]. intros m.
  apply hoare_if; [by apply hoare_ret|].
  apply hoare_bind_stable; [solve [eauto with stable]..|]. intros ?.
  apply hoare_bind_stable; [solve [eauto with stable]..|]. intros ?.
  apply hoare_stable_agree. by apply stable_modifyM.
Qed.

Lemma hoare_step op : hoare agree (step op) (fun _ => agree) agree.
Proof.
  destruct op; cbn [step].
  - eapply hoare_bind; [apply hoare_mapAddUntimed|]. intros ?. by apply hoare_ret.
  - eapply hoare_bind; [apply hoare_Tick|]. intros ?. by apply hoare_ret.
  - apply hoare_mapSetRuntimeOptions.
  - apply hoare_Close.
Qed.

Lemma hoare_runOps ops : hoare agree (runOps ops) (fun _ => agree) agree.
Proof.
  induction ops as [|op rest IH]; cbn [runOps]; [by apply hoare_ret|].
  eapply hoare_bind; [apply hoare_step|]. intros ?. apply IH.
Qed.

Lemma consistent_same_keys m :
  consistent m ->
  dom (entries m) = list_to_set (listKeys m)
  /\ size (entries m) = length (entryList m).
Proof.
  intros (Hids & Hkeys & Hlt & Hiff).
  assert (dom (entries m) = list_to_set (listKeys m)) as Hdom.
  { apply set_eq. intros k. rewrite elem_of_dom, elem_of_list_to_set.
    unfold listKeys. rewrite list_elem_of_fmap. split.
    - intros [elem_ Hl]. apply Hiff in Hl as [p Hin].
      exists (elem_, {| heKey := k; heEntry := p |}). by split.
    - intros ([elem_ [k' p]] & Hk & Hin). cbn in Hk. subst k'.
      exists elem_. apply Hiff. by exists p. }
  split; [done|].
  rewrite <- size_dom, Hdom, size_list_to_set by done.
  unfold listKeys. by rewrite length_fmap.
Qed.

(** C3: after any sequence of operations on a new shard map (untimed
    writes, ticks, runtime option changes, close), wherever the run stands,
    the keys of the entries map are exactly the keys of the ordered entry
    list, no key is listed twice, and the map and the list have the same
    size. The run may be any prefix of a longer one, so this holds after
    every operation. *)
Theorem map_and_list_hold_the_same_entries (o : Options) (ls : Lists)
    (ro : RuntimeOptions) (h : gmap nat Entry) (w : World) (ops : list Op) :
  let s' := snd (runOps ops {| mmap := newMetricMap o ls ro; heap := h; world := w |}) in
  dom (entries (mmap s')) = list_to_set (listKeys (mmap s'))
  /\ NoDup (listKeys (mmap s'))
  /\ size (entries (mmap s')) = length (entryList (mmap s')).
Proof.
  cbv zeta.
  pose proof (hoare_runOps ops {| mmap := newMetricMap o ls ro; heap := h; world := w |}
                (consistent_new o ls ro)) as Hrun.
  assert (agree (snd (runOps ops
            {| mmap := newMetricMap o ls ro; heap := h; world := w |}))) as Hagree.
  { destruct (runOps ops _) as [[[]|] s']; exact Hrun. }
  destruct (consistent_same_keys _ Hagree) as [Hdom Hsize].
  split; [done|]. split; [|done]. apply Hagree.
Qed.


Lemma quiet_ret {A} (a : A) : quiet (ret a).
Proof. by intros s. Qed.

Lemma quiet_panic {A} : quiet (@panic State A).
Proof. by intros s. Qed.

Lemma quiet_bind {A B} (c : MM A) (k : A -> MM B) :
  quiet c -> (forall a, quiet (k a)) -> quiet (bind c k).
Proof.
  intros Hc Hk s. unfold bind. destruct (Hc s) as (H1 & H2 & H3).
  destruct (c s) as [[a|] s1]; cbn [snd] in *; [|done].
  destruct (Hk a s1) as (H4 & H5 & H6). repeat split; congruence.
Qed.

Lemma quiet_getM : quiet getM.
Proof. by intros s. Qed.

Lemma quiet_liftWorld {A} (f : World -> A * World) : quiet (liftWorld f).
Proof. by intros s. Qed.

Lemma quiet_modifyWorld (f : World -> World) : quiet (modifyWorld f).
Proof. by intros s. Qed.

Lemma quiet_modifyM (f : metricMap -> metricMap) :
  (forall m, shape (f m) = shape m /\ mopts (f m) = mopts m) -> quiet (modifyM f).
Proof. intros Hf s. destruct (Hf (mmap s)). by repeat split. Qed.

Lemma quiet_incMapMetric f : quiet (incMapMetric f).
Proof. by apply quiet_modifyM. Qed.

Lemma quiet_if {A} (b : bool) (c1 c2 : MM A) :
  quiet c1 -> quiet c2 -> quiet (if b then c1 else c2).
Proof. by destruct b. Qed.

#[local] Hint Resolve quiet_ret quiet_panic quiet_getM quiet_liftWorld
  quiet_modifyWorld quiet_incMapMetric : quiet.

Lemma quiet_lookupEntryWithLock k : quiet (lookupEntryWithLock k).
Proof.
  unfold lookupEntryWithLock.
  repeat first
    [ apply quiet_bind; [|intros ?]
    | solve [auto with quiet]
    | match goal with |- quiet (match ?x with _ => _ end) => destruct x end ].
Qed.

Lemma quiet_applyNewMetricRateLimitWithLock now :
  quiet (applyNewMetricRateLimitWithLock now).
Proof.
  unfold applyNewMetricRateLimitWithLock. cbv zeta.
  repeat first
    [ apply quiet_bind; [|intros ?]
    | apply quiet_if
    | apply quiet_modifyM; by intros ?
    | solve [auto with quiet]
    | match goal with |- quiet (match ?x with _ => _ end) => destruct x end ].
Qed.

Lemma hoare_bind_quiet {A B} (c : MM A) (k : A -> MM B) (P : State -> Prop) Q E :
  quiet c -> quietOnly P -> (forall s, P s -> E s) ->
  (forall a, hoare P (k a) Q E) -> hoare P (bind c k) Q E.
Proof.
  intros Hc HP HE Hk s Hs. unfold bind. destruct (Hc s) as (H1 & H2 & H3).
  destruct (c s) as [[a|] s1]; cbn [snd] in *.
  - apply Hk. by eapply HP.
  - apply HE. by eapply HP.
Qed.

Lemma ResetSetData_writers ls ro o e w :
  fst (ResetSetData ls ro o (e, w)) = Returns tt
  /\ numWriters (fst (snd (ResetSetData ls ro o (e, w)))) = 0.
Proof.
  unfold ResetSetData, resetRateLimiterWithLock, recordLastAccessed. go_step.
  destruct (WriteValuesPerMetricLimitPerSecond ro <=? 0); cbn; [done|].
  destruct (rateLimiter e); cbn; done.
Qed.

Lemma entryAt_onEntry {A} p (c : EM A) s :
  entryAt (snd (onEntry p c s)) p = fst (snd (c (entryAt s p, world s))).
Proof. unfold entryAt, onEntry. cbn. by rewrite lookup_insert_eq. Qed.

Lemma entryAt_ext s s' p :
  heap s' = heap s -> mopts (mmap s') = mopts (mmap s) -> entryAt s' p = entryAt s p.
Proof. intros Hh Ho. unfold entryAt. by rewrite Hh, Ho. Qed.

(** Where [findOrCreate] stands relative to the state [s0] it started
    from, before it touches any entry. *)
Lemma quietOnly_since s0 k :
  quietOnly (fun s => heap s = heap s0 /\ mopts (mmap s) = mopts (mmap s0)
                      /\ entries (mmap s) !! k = entries (mmap s0) !! k).
Proof.
  intros s s' Hsh Hh Ho (H1 & H2 & H3). unfold shape in Hsh.
  inversion Hsh as [[He Hl Hn]]. repeat split; congruence.
Qed.

Lemma hoare_lookup_since s0 k :
  hoare (fun s => heap s = heap s0 /\ mopts (mmap s) = mopts (mmap s0)
                  /\ entries (mmap s) !! k = entries (mmap s0) !! k)
        (lookupEntryWithLock k)
        (fun found s =>
           (heap s = heap s0 /\ mopts (mmap s) = mopts (mmap s0)
            /\ entries (mmap s) !! k = entries (mmap s0) !! k)
           /\ (is_Some found <-> is_Some (entries (mmap s0) !! k)))
        (fun _ => True).
Proof.
  intros s (H1 & H2 & H3). unfold lookupEntryWithLock, bind, getM, ret, panic. cbn.
  rewrite <- H3.
  destruct (entries (mmap s) !! k) eqn:E; cbn.
  - destruct (elementValue _ _); cbn; [|done]. repeat split; eauto; congruence.
  - repeat split; try done; by intros [? [=]].
Qed.

Lemma findOrCreate_writers k s0 :
  hoare (fun s => s = s0) (findOrCreate k)
        (fun r s1 =>
           match r with
           | OK p => numWriters (entryAt s1 p) = wrap32 (writersBefore s0 k p + 1)
           | Fail _ => heap s1 = heap s0
           end)
        (fun _ => True).
Proof.
  set (R := fun s => heap s = heap s0 /\ mopts (mmap s) = mopts (mmap s0)
                     /\ entries (mmap s) !! k = entries (mmap s0) !! k).
  assert (quietOnly R) as HR by apply quietOnly_since.
  assert (forall p, hoare (fun s => R s /\ is_Some (entries (mmap s0) !! k))
                      (onEntry p IncWriter ;> ret (OK p))
                      (fun r s1 =>
                         match r with
                         | OK p => numWriters (entryAt s1 p)
                                   = wrap32 (writersBefore s0 k p + 1)
                         | Fail _ => heap s1 = heap s0
                         end)
                      (fun _ => True)) as Hfound.
  { intros p s [(H1 & H2 & H3) [elem_ Hk]].
    unfold bind, ret. cbn [onEntry IncWriter modifyE fst snd].
    unfold writersBefore. rewrite Hk.
    pose proof (entryAt_onEntry p IncWriter s) as He. cbn in He. unfold entryAt at 1.
    cbn. rewrite lookup_insert_eq. cbn.
    by rewrite (entryAt_ext s s0). }
  eapply hoare_pre with (P' := R); [by intros s ->|].
  unfold findOrCreate.
  apply hoare_bind_quiet; [solve [eauto with quiet]..|]. intros m.
  apply hoare_if; [apply hoare_ret; by intros s (? & _)|].
  eapply hoare_bind; [apply hoare_lookup_since|]. intros [entry|].
  { eapply hoare_pre; [|apply Hfound]. intros s [? Hiff]. split; [done|].
    apply Hiff. by eexists. }
  eapply hoare_pre with (P' := fun s => R s /\ entries (mmap s0) !! k = None).
  { intros s [? Hiff]. split; [done|].
    destruct (entries (mmap s0) !! k) eqn:E; [|done].
    destruct (proj2 Hiff) as [? [=]]. by eexists. }
  assert (quietOnly (fun s => R s /\ entries (mmap s0) !! k = None)) as HRN.
  { intros s s' Hsh Hh Ho [? ?]. split; [by eapply HR|done]. }
  apply hoare_bind_quiet; [solve [eauto with quiet]..|]. intros m'.
  apply hoare_if; [apply hoare_ret; by intros s ((? & _) & _)|].
  eapply hoare_bind with
    (Q1 := fun found s => (R s /\ entries (mmap s0) !! k = None) /\ found = None).
  { intros s [HRs Hn]. pose proof (hoare_lookup_since s0 k s HRs) as Hl.
    destruct (lookupEntryWithLock k s) as [[found|] s1]; [|done].
    destruct Hl as [? Hiff]. split; [done|].
    destruct found; [|done]. destruct (proj1 Hiff) as [? Hs]; [by eexists|].
    congruence. }
  intros found.
  eapply hoare_pre with (P' := fun s => (R s /\ entries (mmap s0) !! k = None)
                                       /\ found = None); [done|].
  destruct found as [entry|].
  { intros s [_ [=]]. }
  eapply hoare_pre with (P' := fun s => R s /\ entries (mmap s0) !! k = None);
    [by intros s [? _]|].
  apply hoare_bind_quiet; [solve [eauto with quiet]..|]. intros now.
  apply hoare_bind_quiet; [|solve [eauto with quiet]..|].
  { destruct (firstInsertAt m'); [apply quiet_ret|by apply quiet_modifyM]. }
  intros ?.
  apply hoare_bind_quiet;
    [apply quiet_applyNewMetricRateLimitWithLock|solve [eauto with quiet]..|].
  intros [err|]; [apply hoare_ret; by intros s ((? & _) & _)|].
  apply hoare_bind_quiet; [solve [eauto with quiet]..|]. intros entry.
  apply hoare_bind_quiet; [solve [eauto with quiet]..|]. intros m''.
  intros s [_ Hn].
  unfold bind, ret, incMapMetric, modifyM.
  cbn [onEntry fst snd].
  destruct (ResetSetData_writers (metricLists_ m'') (runtimeOpts m'') (mopts m'')
              (entryAt s entry) (world s)) as [Hret Hzero].
  destruct (ResetSetData (metricLists_ m'') (runtimeOpts m'') (mopts m'')
              (entryAt s entry, world s)) as [r [e1 w1]].
  cbn [fst snd] in Hret, Hzero. subst r. cbn [fst snd].
  unfold writersBefore. rewrite Hn.
  unfold entryAt, onEntry, IncWriter, modifyE. cbn.
  rewrite !lookup_insert_eq. cbn. by rewrite Hzero.
Qed.

Lemma wrap32_inc_dec (n : Z) : wrap32 (wrap32 (n + 1) - 1) = wrap32 n.
Proof.
  unfold wrap32.
  replace ((n + 1 + 2 ^ 31) `mod` 2 ^ 32 - 2 ^ 31 - 1 + 2 ^ 31)
    with ((n + 1 + 2 ^ 31) `mod` 2 ^ 32 - 1) by lia.
  rewrite Zminus_mod_idemp_l. f_equal. f_equal. lia.
Qed.

Lemma wrap32_id (n : Z) : - 2 ^ 31 <= n < 2 ^ 31 -> wrap32 n = n.
Proof. intros Hn. unfold wrap32. rewrite Z.mod_small; lia. Qed.

(** C9: a call of the map's [AddUntimed] that returns, with or without an
    error from the entry, leaves the writer count of the entry it wrote to
    where it was: [findOrCreate] raised it by one, from the count of the
    entry it found or from the zero of the entry it just reset, the
    entry's own [AddUntimed] did not touch it, and [DecWriter] lowered it
    by one. When [findOrCreate] fails, no entry is returned and no entry
    is touched, and the failure is what the call returns. The count is an
    [int32]; within its range it comes back exactly. *)
Theorem add_untimed_releases_the_writer (metric : MetricUnion)
    (metadatas : list StagedMetadata) (s : State) (err : option error) (s' : State) :
  mapAddUntimed metric metadatas s = (Returns err, s') ->
  let k : entryKey := (Type_ metric, Murmur3Hash128 (ID metric)) in
  match findOrCreate k s with
  | (Returns (OK p), s1) =>
      numWriters (entryAt s1 p) = wrap32 (writersBefore s k p + 1)
      /\ (exists s2,
            onEntry p (AddUntimed metric metadatas) s1 = (Returns err, s2)
            /\ numWriters (entryAt s2 p) = numWriters (entryAt s1 p)
            /\ onEntry p DecWriter s2 = (Returns tt, s'))
      /\ numWriters (entryAt s' p) = wrap32 (writersBefore s k p)
      /\ (- 2 ^ 31 <= writersBefore s k p < 2 ^ 31 ->
          numWriters (entryAt s' p) = writersBefore s k p)
  | (Returns (Fail e), s1) => err = Some e /\ s' = s1 /\ heap s' = heap s
  | (Panics, _) => False
  end.
Proof.
  intros Hadd. cbv zeta. unfold mapAddUntimed in Hadd. cbv zeta in Hadd.
  unfold bind at 1 in Hadd.
  pose proof (findOrCreate_writers (Type_ metric, Murmur3Hash128 (ID metric)) s s eq_refl)
    as Hfind.
  destruct (findOrCreate (Type_ metric, Murmur3Hash128 (ID metric)) s)
    as [[[p|e]|] s1]; cbn in Hfind;
    [|unfold ret in Hadd; inversion Hadd; by subst|done].
  unfold bind at 1 in Hadd.
  pose proof (entryAt_onEntry p (AddUntimed metric metadatas) s1) as Hat.
  pose proof (keepsWriters_AddUntimed metric metadatas (entryAt s1 p) (world s1))
    as Hkeep.
  destruct (onEntry p (AddUntimed metric metadatas) s1) as [[r|] s2] eqn:E2;
    cbn [fst snd] in *; [|done].
  unfold bind at 1 in Hadd.
  pose proof (entryAt_onEntry p DecWriter s2) as Hdec.
  destruct (onEntry p DecWriter s2) as [[[]|] s3] eqn:E3; cbn [fst snd] in *; [|done].
  unfold ret in Hadd. inversion Hadd; subst r s3; clear Hadd.
  assert (numWriters (entryAt s2 p) = numWriters (entryAt s1 p)) as H21.
  { rewrite Hat. apply Hkeep. }
  assert (numWriters (entryAt s' p)
          = wrap32 (writersBefore s (Type_ metric, Murmur3Hash128 (ID metric)) p))
    as Hfinal.
  { rewrite Hdec. cbn. rewrite H21, Hfind. apply wrap32_inc_dec. }
  split; [done|]. split; [by exists s2|]. split; [done|].
  intros Hrange. rewrite Hfinal. by apply wrap32_id.
Qed.

End MapFacts.

(** ** Message writer *)

Section WriterFacts.
Import Writer.
Context `{Collaborators}.
Local Open Scope go_scope.

(** C10: acknowledging a metadata the acks map does not hold changes
    nothing, neither the writer nor the collaborators (no message's [Ack]
    runs). Acknowledging one it holds removes it and calls the message's
    [Ack], so a second acknowledgement of the same metadata finds nothing
    and changes nothing: acking twice leaves the state acking once
    left. *)
Theorem ack_of_absent_metadata_is_a_no_op (meta : metadata)
    (w : messageWriterImpl) (wd : World) :
  (acks w !! meta = None -> Ack meta (w, wd) = (Returns tt, (w, wd)))
  /\ (forall msg, acks w !! meta = Some msg ->
        Ack meta (w, wd) = (Returns tt, (set_acks (delete meta (acks w)) w, msgAck msg wd)))
  /\ Ack meta (snd (Ack meta (w, wd))) = (Returns tt, snd (Ack meta (w, wd))).
Proof.
  unfold Ack, acks_ack, bind, getWr, modifyWr, modifyW, ret. cbn.
  split; [by intros ->|]. split; [by intros msg ->|].
  destruct (acks w !! meta) as [msg|] eqn:E; cbn.
  - by rewrite lookup_delete_eq.
  - by rewrite E.
Qed.

(** C7, amended: [Write] rejects the message, surfacing no error and only
    counting an invalid write, when the cutoff time is set (positive) and
    the current time is at or after it, or else when the cutover time is
    set (positive) and the current time is before it; a cutoff or cutover
    of zero is not set and rejects nothing. Otherwise it raises the
    payload's reference count, takes a message from the pool, moves the
    writer's [uint64] message id to the next one, resets the message to
    that id and payload, records it in the acks map under (replicated
    shard id, message id) and appends it to the tail of the queue. As long
    as the id does not wrap around, the new id is the old one plus one, so
    accepted writes get strictly increasing ids. *)
Theorem write_checks_cutoff_and_cutover (rm : RefCountedMessage)
    (w : messageWriterImpl) (wd : World) :
  let now := fst (nowFn wd) in
  let wd0 := snd (nowFn wd) in
  let msg := fst (mPoolGet (IncRef rm wd0)) in
  let id := wrapU64 (msgID w + 1) in
  (cutOffNanos w > 0 /\ now >= cutOffNanos w ->
   Write rm (w, wd)
   = (Returns tt,
      (set_m {| writeAfterCutoff := writeAfterCutoff (m w) + 1;
                writeBeforeCutover := writeBeforeCutover (m w) |} w, wd0)))
  /\ (~ (cutOffNanos w > 0 /\ now >= cutOffNanos w) ->
      cutOverNanos w > 0 /\ now < cutOverNanos w ->
      Write rm (w, wd)
      = (Returns tt,
         (set_m {| writeAfterCutoff := writeAfterCutoff (m w);
                   writeBeforeCutover := writeBeforeCutover (m w) + 1 |} w, wd0)))
  /\ (~ (cutOffNanos w > 0 /\ now >= cutOffNanos w) ->
      ~ (cutOverNanos w > 0 /\ now < cutOverNanos w) ->
      Write rm (w, wd)
      = (Returns tt,
         (set_queue (queue w ++ [msg])
            (set_acks (<[(replicatedShardID w, id) := msg]> (acks w))
               (set_msgID id w)),
          msgReset msg (replicatedShardID w, id) rm (snd (mPoolGet (IncRef rm wd0))))))
  /\ (0 <= msgID w < 2 ^ 64 - 1 -> id = msgID w + 1 /\ msgID w < id).
Proof.
  cbv zeta. unfold Write, isValidWriteWithLock, acks_add.
  unfold bind, getWr, modifyWr, modifyW, liftW, ret. cbn.
  repeat split.
  - intros [Hpos Hge].
    destruct (Z.gtb_spec (cutOffNanos w) 0); [|lia].
    destruct (Z.geb_spec (fst (nowFn wd)) (cutOffNanos w)); [|lia]. done.
  - intros Hoff [Hpos Hlt].
    assert ((cutOffNanos w >? 0) && (fst (nowFn wd) >=? cutOffNanos w) = false) as ->.
    { destruct (Z.gtb_spec (cutOffNanos w) 0); [|done].
      destruct (Z.geb_spec (fst (nowFn wd)) (cutOffNanos w)); [|done]. lia. }
    destruct (Z.gtb_spec (cutOverNanos w) 0); [|lia].
    destruct (Z.ltb_spec (fst (nowFn wd)) (cutOverNanos w)); [|lia]. done.
  - intros Hoff Hover.
    assert ((cutOffNanos w >? 0) && (fst (nowFn wd) >=? cutOffNanos w) = false) as ->.
    { destruct (Z.gtb_spec (cutOffNanos w) 0); [|done].
      destruct (Z.geb_spec (fst (nowFn wd)) (cutOffNanos w)); [|done]. lia. }
    assert ((cutOverNanos w >? 0) && (fst (nowFn wd) <? cutOverNanos w) = false) as ->.
    { destruct (Z.gtb_spec (cutOverNanos w) 0); [|done].
      destruct (Z.ltb_spec (fst (nowFn wd)) (cutOverNanos w)); [|done]. lia. }
    done.
  - unfold wrapU64. rewrite Z.mod_small; lia.
  - unfold wrapU64. rewrite Z.mod_small; lia.
Qed.
End WriterFacts.

(** ** The theorems at concrete inputs *)

Section Concrete.
Import Aggregator Sim.


(** C4 at work: an entry bound by [metadatas1] is asked to move to
    [brokenStaged]; the first pipeline gets its two elements, the second
    does not decompress, the update returns the error, and the entry is
    what it was. *)
Lemma update_metadatas_error_keeps_bindings_witness :
  let e := fst (snd writtenOnce) in
  let w := snd (snd writtenOnce) in
  let r := updateMetadatasWithLock (counter 5) false brokenStaged (e, w) in
  (fst r = Returns (Some (errCollaborator 1))
   /\ nextElem (snd (snd r)) = (nextElem w + 2)%nat)
  /\ aggregations (fst (snd r)) = aggregations e
  /\ cutoverNanos (fst (snd r)) = cutoverNanos e
  /\ hasDefaultMetadatas (fst (snd r)) = hasDefaultMetadatas e
  /\ fst (snd r) = e.
Proof.
  cbv zeta. split; [split; vm_compute; reflexivity|].
  apply (update_metadatas_error_keeps_bindings (counter 5) false brokenStaged
           (fst (snd writtenOnce)) (snd (snd writtenOnce)) (errCollaborator 1)
           (fst (snd (updateMetadatasWithLock (counter 5) false brokenStaged
                        (fst (snd writtenOnce), snd (snd writtenOnce)))))
           (snd (snd (updateMetadatasWithLock (counter 5) false brokenStaged
                        (fst (snd writtenOnce), snd (snd writtenOnce)))))).
  vm_compute. reflexivity.
Defined.

(** C6 at work: a batch of three timer values meets a limiter with one
    token left. *)
Lemma value_rate_limit_applied_first_witness :
  let metric := batchTimer 5 [1%nat; 2%nat; 3%nat] in
  let l := {| limitPerSecond := 10; period := second; alignedLast := 0; taken := 9 |} in
  let r := AddUntimed metric metadatas1 (limitedEntry, (newWorld 0 : World)) in
  (rateLimiter limitedEntry = Some l
   /\ limiterIsAllowed (numValuesOf metric) l (newWorld 0 : World)
      = (false, l, (newWorld 0 : World)))
  /\ fst r = Returns (Some errWriteValueRateLimitExceeded)
  /\ valueRateLimitExceeded (metrics (fst (snd r))) = 1
  /\ droppedValues (metrics (fst (snd r))) = 3
  /\ length (aggregations (fst (snd r))) = length (aggregations limitedEntry)
  /\ added (snd (snd r)) = []
  /\ returnedBatches (snd (snd r)) = 1%nat.
Proof.
  cbv zeta.
  assert (rateLimiter limitedEntry
          = Some {| limitPerSecond := 10; period := second; alignedLast := 0;
                    taken := 9 |}) as Hl by (vm_compute; reflexivity).
  assert (limiterIsAllowed (numValuesOf (batchTimer 5 [1%nat; 2%nat; 3%nat]))
            {| limitPerSecond := 10; period := second; alignedLast := 0; taken := 9 |}
            (newWorld 0 : World)
          = (false,
             {| limitPerSecond := 10; period := second; alignedLast := 0; taken := 9 |},
             (newWorld 0 : World))) as Hdeny by (vm_compute; reflexivity).
  split; [by split|].
  rewrite (@value_rate_limit_applied_first types collaborators
             (batchTimer 5 [1%nat; 2%nat; 3%nat])
             metadatas1 limitedEntry (newWorld 0) _ _ _ _ Hl Hdeny).
  repeat split; vm_compute; reflexivity.
Defined.


(** C9 at work: a first write to a new map creates entry 0, whose writer
    count is one inside the call and zero after it. *)
Lemma add_untimed_releases_the_writer_witness :
  let s := newState 0 in
  let k : entryKey := (CounterType, Murmur3Hash128 5%nat) in
  let s' := snd (mapAddUntimed (counter 5) metadatas1 s) in
  fst (findOrCreate k s) = Returns (OK 0%nat)
  /\ numWriters (entryAt (snd (findOrCreate k s)) 0) = 1
  /\ numWriters (entryAt s' 0) = 0.
Proof.
  cbv zeta.
  pose proof (add_untimed_releases_the_writer (counter 5) metadatas1 (newState 0)
                None (snd (mapAddUntimed (counter 5) metadatas1 (newState 0))))
    as Hthm.
  cbv zeta in Hthm.
  assert (findOrCreate (Type_ (counter 5), Murmur3Hash128 (ID (counter 5))) (newState 0)
          = (Returns (OK 0%nat),
             snd (findOrCreate (CounterType, Murmur3Hash128 5%nat) (newState 0)))) as Hf
    by (vm_compute; reflexivity).
  rewrite Hf in Hthm.
  destruct Hthm as (H1 & _ & H3 & _); [vm_compute; reflexivity|].
  split; [vm_compute; reflexivity|]. split.
  - rewrite H1. vm_compute. reflexivity.
  - rewrite H3. vm_compute. reflexivity.
Defined.

(** C7, as stated, fails on a new writer: its cutoff time is 0, so at
    time 1 the current time is at or after the cutoff, and yet [Write]
    accepts the message (id 1, queued, recorded in the acks map, no
    invalid write counted). It also fails on the last message id: the next
    accepted write gets id 0, which is not larger. *)
Lemma write_accepts_when_cutoff_is_unset :
  let r := Writer.Write 42%nat (newWriter, newWriterWorld 1) in
  let r' := Writer.Write 42%nat (lastIdWriter, newWriterWorld 1) in
  (1 >=? Writer.cutOffNanos newWriter) = true
  /\ fst r = Returns tt
  /\ Writer.queue (fst (snd r)) = [0%nat]
  /\ Writer.msgID (fst (snd r)) = 1
  /\ Writer.acks (fst (snd r)) !! (7, 1) = Some 0%nat
  /\ Writer.m (fst (snd r)) = Writer.m newWriter
  /\ refs (snd (snd r)) !! 42%nat = Some 1
  /\ Writer.queue (fst (snd r')) = [0%nat]
  /\ Writer.msgID (fst (snd r')) = 0
  /\ (Writer.msgID lastIdWriter <? Writer.msgID (fst (snd r'))) = false.
Proof.
  cbv zeta. repeat split; vm_compute; reflexivity.
Qed.

(** The rate limit scenario: with ten values a second allowed, fifteen
    counter writes at time 0 on one entry give ten successes and five
    rate-limit errors. *)
Example fifteen_writes_under_a_limit_of_ten :
  fst (writes 15 (counter 5) metadatas1 (newEntry 10 (newWorld 0)))
  = Returns (replicate 10 None
             ++ replicate 5 (Some errWriteValueRateLimitExceeded)).
Proof. vm_compute. reflexivity. Qed.

(** The expiration scenario: with a TTL of one second, an entry written
    at time 0 is gone from the map and from the list after a tick at two
    seconds and a bit, and the next write makes a new entry. *)
Example written_then_expired_then_written_again :
  let s1 := snd (mapAddUntimed (counter 5) metadatas1 (newState 0)) in
  let r2 := Tick second (set_world (setClock (2 * second + 1) (world s1)) s1) in
  let s3 := snd (mapAddUntimed (counter 5) metadatas1 (snd r2)) in
  length (entryList (mmap s1)) = 1%nat
  /\ size (entries (mmap s1)) = 1%nat
  /\ fst r2 = Returns {| ActiveEntries := 0; ExpiredEntries := 1; ActiveElems := 1 |}
  /\ entryList (mmap (snd r2)) = []
  /\ size (entries (mmap (snd r2))) = 0%nat
  /\ length (entryList (mmap s3)) = 1%nat
  /\ newEntries (mmetrics (mmap s3)) = 2.
Proof. cbv zeta. repeat split; vm_compute; reflexivity. Qed.

End Concrete.
